(** * Plate-text normalisation of the ANPR application

    A shallow embedding of [ANPRModel._post_process_text] and of the
    candidate selection of [ANPRModel.recognize_plate]
    (Trial/integrated_anpr/models/anpr_model.py), with the pieces of the
    Python runtime they call: [str] methods, [dict] access, [re.match] and
    the stable [list.sort]. *)

From Stdlib Require Import List Bool Arith NArith QArith Lia String Ascii.
From Stdlib Require Import Permutation Sorted ZArith.
Import ListNotations.
Close Scope Q_scope.

(** ** The Python runtime *)

Module Py.

(** A Python [str] is a sequence of Unicode code points. *)
Definition codepoint := N.
Definition str := list codepoint.

(** An ASCII literal, read as the list of its code points. *)
Definition lit (s : string) : str := map N_of_ascii (list_ascii_of_string s).

Definition len {A} (l : list A) : nat := List.length l.

(** Truth value of a sequence: empty is false. *)
Definition truthy {A} (l : list A) : bool :=
  match l with [] => false | _ :: _ => true end.

(** The exceptions the modelled operations can raise. *)
Inductive exn := KeyError | IndexError.

Inductive result (A : Type) : Type :=
| Ok (a : A)
| Raise (e : exn).
Arguments Ok {A} a.
Arguments Raise {A} e.

Definition bind {A B} (m : result A) (k : A -> result B) : result B :=
  match m with
  | Ok a => k a
  | Raise e => Raise e
  end.

(** A [dict] with a handful of constant entries: an association list. *)
Definition dict := list (codepoint * codepoint).

Fixpoint lookup (d : dict) (k : codepoint) : option codepoint :=
  match d with
  | [] => None
  | (k', v) :: d' => if N.eqb k k' then Some v else lookup d' k
  end.

(** [k in d] *)
Definition contains (d : dict) (k : codepoint) : bool :=
  match lookup d k with Some _ => true | None => false end.

(** [d[k]], which raises [KeyError] on a missing key. *)
Definition getitem (d : dict) (k : codepoint) : result codepoint :=
  match lookup d k with Some v => Ok v | None => Raise KeyError end.

(** [d.get(k, default)] *)
Definition get (d : dict) (k default : codepoint) : codepoint :=
  match lookup d k with Some v => v | None => default end.

(** [l[i]], which raises [IndexError] out of range (non-negative [i]). *)
Definition index {A} (l : list A) (i : nat) : result A :=
  match nth_error l i with Some x => Ok x | None => Raise IndexError end.

(** A [float] that is a number: a finite float is a rational, and two
    of them compare as the rationals do.  Confidences lie in [0,1]. *)
Definition float := Q.

Definition float_lt (x y : float) : bool := negb (Qle_bool y x).

(** [l.sort(key=key, reverse=True)]: the list in descending order of
    [key], elements of equal key in their original order (the sort is
    stable, also when reversed).  Only [<] on keys is used. *)
Section Sort.
Variable A : Type.
Variable key : A -> float.

Fixpoint insert_desc (x : A) (l : list A) : list A :=
  match l with
  | [] => [x]
  | y :: l' => if float_lt (key x) (key y) then y :: insert_desc x l'
               else x :: l
  end.

Definition sort_reverse (l : list A) : list A :=
  fold_right insert_desc [] l.
End Sort.
Arguments insert_desc {A} key x l.
Arguments sort_reverse {A} key l.

End Py.

Import Py.

Declare Scope py_scope.
Delimit Scope py_scope with py.
Notation "x <- m ;; k" := (bind m (fun x => k))
  (at level 61, m at next level, right associativity) : py_scope.
Notation "' pat <- m ;; k" := (bind m (fun x => match x with pat => k end))
  (at level 61, pat pattern, m at next level, right associativity) : py_scope.
Open Scope py_scope.

(** ** Character classes

    The [str] predicates and [str.upper] read the Unicode character
    database.  On ASCII they are written out below; beyond ASCII they are
    whatever the database of the running interpreter says, which is a
    parameter of the development. *)

Record UnicodeData := {
  ud_isalpha   : codepoint -> bool;        (* categories Lu, Ll, Lt, Lm, Lo *)
  ud_isdecimal : codepoint -> bool;        (* category Nd; also the class of \d *)
  ud_isdigit   : codepoint -> bool;        (* Numeric_Type Digit or Decimal *)
  ud_isnumeric : codepoint -> bool;        (* any Numeric_Type *)
  ud_upper     : codepoint -> list codepoint    (* full upper-case mapping *)
}.

Definition is_ascii (c : codepoint) : bool := (c <? 128)%N.
Definition ascii_upper (c : codepoint) : bool := ((65 <=? c) && (c <=? 90))%N.
Definition ascii_lower (c : codepoint) : bool := ((97 <=? c) && (c <=? 122))%N.
Definition ascii_digit (c : codepoint) : bool := ((48 <=? c) && (c <=? 57))%N.

Section Unicode.

Variable U : UnicodeData.

Definition isalpha (c : codepoint) : bool :=
  if is_ascii c then ascii_upper c || ascii_lower c else ud_isalpha U c.

Definition isdecimal (c : codepoint) : bool :=
  if is_ascii c then ascii_digit c else ud_isdecimal U c.

Definition isdigit (c : codepoint) : bool :=
  if is_ascii c then ascii_digit c else ud_isdigit U c.

Definition isnumeric (c : codepoint) : bool :=
  if is_ascii c then ascii_digit c else ud_isnumeric U c.

(** [c.isalnum()] is true when one of the four above is. *)
Definition isalnum (c : codepoint) : bool :=
  isalpha c || isdecimal c || isdigit c || isnumeric c.

Definition upper_char (c : codepoint) : list codepoint :=
  if is_ascii c then [if ascii_lower c then (c - 32)%N else c]
  else ud_upper U c.

(** [s.upper()]: every character replaced by its upper-case mapping, which
    may be longer than one character. *)
Definition upper (s : str) : str := flat_map upper_char s.

End Unicode.

(** ** Regular expressions, as far as [plate_pattern] uses them *)

Module Re.

Inductive regex :=
| Eps
| Cls (p : codepoint -> bool)      (* one character of a class *)
| Seq (r1 r2 : regex)
| Alt (r1 r2 : regex)         (* tried left to right *)
| Bol                         (* ^ *)
| Eol.                        (* $ *)

Definition newline : codepoint := 10%N.

(** [$] without MULTILINE: at the end, or before a newline that ends the
    string. *)
Definition at_eol (rest : str) : bool :=
  match rest with
  | [] => true
  | [c] => N.eqb c newline
  | _ => false
  end.

(** Backtracking matcher: [r] against a prefix of [s], which starts at
    offset [pos] of the subject; [k] is what remains to be matched. *)
Fixpoint run (r : regex) (pos : nat) (s : str) (k : nat -> str -> bool) : bool :=
  match r with
  | Eps => k pos s
  | Cls p =>
      match s with
      | c :: s' => p c && k (S pos) s'
      | [] => false
      end
  | Seq r1 r2 => run r1 pos s (fun pos' s' => run r2 pos' s' k)
  | Alt r1 r2 => run r1 pos s k || run r2 pos s k
  | Bol => Nat.eqb pos 0 && k pos s
  | Eol => at_eol s && k pos s
  end.

(** [r{m}] *)
Fixpoint times (r : regex) (m : nat) : regex :=
  match m with
  | O => Eps
  | S m' => Seq r (times r m')
  end.

(** [r{0,n}], greedy *)
Fixpoint upto (r : regex) (n : nat) : regex :=
  match n with
  | O => Eps
  | S n' => Alt (Seq r (upto r n')) Eps
  end.

(** [r{m,n}] *)
Definition rep (r : regex) (m n : nat) : regex :=
  Seq (times r m) (upto r (n - m)).

(** [r?] *)
Definition opt (r : regex) : regex := upto r 1.

(** [re.match(r, s)] as a truth value: a match that starts at offset 0. *)
Definition re_match (r : regex) (s : str) : bool :=
  run r 0 s (fun _ _ => true).

End Re.

(** ** ANPRModel *)

Module ANPRModel.
Import Re.

(** [self.corrections] *)
Definition corrections : dict :=
  [ (79, 48);   (* 'O': '0' *)
    (73, 49);   (* 'I': '1' *)
    (90, 50);   (* 'Z': '2' *)
    (83, 53);   (* 'S': '5' *)
    (66, 56);   (* 'B': '8' *)
    (68, 48);   (* 'D': '0' *)
    (81, 48);   (* 'Q': '0' *)
    (84, 55)    (* 'T': '7' *)
  ]%N.

(** The local [digit_to_letter] of both letter zones. *)
Definition digit_to_letter : dict :=
  [ (48, 79);   (* '0': 'O' *)
    (49, 73);   (* '1': 'I' *)
    (50, 90);   (* '2': 'Z' *)
    (52, 65);   (* '4': 'A' *)
    (53, 83);   (* '5': 'S' *)
    (54, 71);   (* '6': 'G' *)
    (55, 84);   (* '7': 'T' *)
    (56, 66)    (* '8': 'B' *)
  ]%N.

Section WithUnicode.

Variable U : UnicodeData.

(** [self.plate_pattern = r'^[A-Z]{2}\d{1,2}[A-Z]{1,2}\d{1,4}[A-Z]?$'];
    in a [str] pattern [\d] is any Unicode decimal digit. *)
Definition plate_pattern : regex :=
  Seq Bol
 (Seq (times (Cls ascii_upper) 2)
 (Seq (rep (Cls (isdecimal U)) 1 2)
 (Seq (rep (Cls ascii_upper) 1 2)
 (Seq (rep (Cls (isdecimal U)) 1 4)
 (Seq (opt (Cls ascii_upper))
      Eol))))).

(** The body of the correction loop: the character appended to
    [processed_text] at index [i], for a cleaned text of length [n]. *)
Definition correct_char (n i : nat) (char : codepoint) : result codepoint :=
  if i <? 2 then
    if isdigit U char then Ok (get digit_to_letter char char)
    else Ok char
  else if i <? 4 then
    if isalpha U char && contains corrections char
    then getitem corrections char
    else Ok char
  else if i <? 6 then
    if isdigit U char && (8 <? n)
    then Ok (get digit_to_letter char char)
    else Ok char
  else
    if isalpha U char && contains corrections char
    then getitem corrections char
    else Ok char.

(** [for i, char in enumerate(text): processed_text += ...], from index
    [i] on. *)
Fixpoint correct_loop (n i : nat) (rest processed_text : str) : result str :=
  match rest with
  | [] => Ok processed_text
  | char :: rest' =>
      c <- correct_char n i char ;;
      correct_loop n (S i) rest' (processed_text ++ [c])
  end.

Definition _post_process_text (text : str) : result str :=
  if negb (truthy text) then Ok [] else
  let text := filter (isalnum U) text in
  let text := upper U text in
  if len text <? 4 then Ok [] else
  processed_text <- correct_loop (len text) 0 text [] ;;
  if re_match plate_pattern processed_text then Ok processed_text else
  if (6 <=? len processed_text)
     && existsb (isdigit U) processed_text
     && existsb (isalpha U) processed_text
  then Ok processed_text
  else Ok [].

(** The loop of [recognize_plate] over the OCR results: the candidates
    it appends to [candidates]. *)
Fixpoint collect {B} (all_results : list (B * str * float))
         (candidates : list (str * float)) : result (list (str * float)) :=
  match all_results with
  | [] => Ok candidates
  | (bbox, text, conf) :: rest =>
      processed_text <- _post_process_text text ;;
      collect rest
        (if truthy processed_text
         then candidates ++ [(processed_text, conf)]
         else candidates)
  end.

(** [recognize_plate] from [all_results] on (the OCR calls before it
    are the collaborator's). *)
Definition recognize_plate {B} (all_results : list (B * str * float))
  : result (str * float) :=
  if negb (truthy all_results) then Ok ([], 0%Q) else
  candidates <- collect all_results [] ;;
  let candidates := sort_reverse snd candidates in
  if truthy candidates then
    '(best_text, best_conf) <- index candidates 0 ;;
    Ok (best_text, best_conf)
  else Ok ([], 0%Q).

(** The normalizer: [recognize_plate] on candidates that carry no
    bounding box. *)
Definition normalize (candidates : list (str * float)) : result (str * float) :=
  recognize_plate (map (fun c => (tt, fst c, snd c)) candidates).

End WithUnicode.

End ANPRModel.

(** ** ModelHandler (Trial/integrated_anpr/models/model_handler.py) *)

Module ModelHandler.

Definition _is_valid_plate (U : UnicodeData) (text : str) : bool :=
  if len text <? 5 then false else
  let has_letters := existsb (isalpha U) text in
  let has_numbers := existsb (isdigit U) text in
  has_letters && has_numbers.

End ModelHandler.

(** ** An excerpt of the Unicode character database

    Four code points beyond ASCII as CPython's [str] methods report them:
    U+00E9 (e acute, a letter whose upper case is U+00C9), U+00C9 (E acute,
    a letter, its own upper case), U+01F0 (j caron, a letter whose upper
    case is the two characters J and U+030C) and U+030C (combining caron:
    no letter, no digit, no number, its own upper case).  The examples use
    no other code point beyond ASCII; any other is given no property and
    maps to itself. *)

Definition ucd_excerpt : UnicodeData := {|
  ud_isalpha c :=
    (* U+00C9 E acute, U+00E9 e acute, U+01F0 j caron *)
    N.eqb c 0xC9 || N.eqb c 0xE9 || N.eqb c 0x1F0;
  ud_isdecimal c := false;
  ud_isdigit c := false;
  ud_isnumeric c := false;
  ud_upper c :=
    if N.eqb c 0xE9 then [0xC9%N]              (* e acute: E acute *)
    else if N.eqb c 0x1F0 then [0x4A; 0x30C]%N (* j caron: J, combining caron *)
    else [c]
|}.

Import Re ANPRModel.

(** ** What the correction loop computes *)

(** [f i x] over the elements of [l], numbered from [i]. *)
Fixpoint imap_from {A B} (f : nat -> A -> B) (i : nat) (l : list A) : list B :=
  match l with
  | [] => []
  | x :: l' => f i x :: imap_from f (S i) l'
  end.

Section Pure.

Variable U : UnicodeData.

(** The character [correct_char] yields, without the exception. *)
Definition corrected (n i : nat) (c : codepoint) : codepoint :=
  if i <? 2 then
    if isdigit U c then get digit_to_letter c c else c
  else if i <? 4 then
    if isalpha U c && contains corrections c then get corrections c c else c
  else if i <? 6 then
    if isdigit U c && (8 <? n) then get digit_to_letter c c else c
  else
    if isalpha U c && contains corrections c then get corrections c c else c.

(** Step 1 and step 2 as functions of the text. *)
Definition cleanup (text : str) : str := upper U (filter (isalnum U) text).
Definition correct (text : str) : str := imap_from (corrected (len text)) 0 text.

(** The test of step 4. *)
Definition fallback (s : str) : bool :=
  (6 <=? len s) && existsb (isdigit U) s && existsb (isalpha U) s.

(** Steps 3 and 4 on a corrected string. *)
Definition validate (s : str) : str :=
  if re_match (plate_pattern U) s then s
  else if fallback s then s else [].

(** The candidates that survive, in input order, each with the confidence
    it came with. *)
Definition accepted {B} (all_results : list (B * str * float)) : list (str * float) :=
  flat_map (fun r =>
              match _post_process_text U (snd (fst r)) with
              | Ok (c :: t) => [(c :: t, snd r)]
              | _ => []
              end) all_results.

End Pure.

(** The survivors among candidates given as pairs. *)
Definition survivors (U : UnicodeData) (candidates : list (str * float)) : list (str * float) :=
  accepted U (map (fun c => (tt, fst c, snd c)) candidates).

(** The first element of largest key: scanning from the right, a later
    element stays ahead only if its key is strictly larger. *)
Fixpoint first_max {A} (key : A -> float) (l : list A) : option A :=
  match l with
  | [] => None
  | x :: l' =>
      match first_max key l' with
      | None => Some x
      | Some y => if float_lt (key x) (key y) then Some y else Some x
      end
  end.

(** Feeding the result of [normalize] on one candidate back as the only
    candidate. *)
Definition renormalize (U : UnicodeData) (c : str * float) : result (str * float) :=
  r <- normalize U [c] ;; normalize U [r].

(** ** The specification's side *)

(** Step 1 in the spec's words: keep ASCII letters and digits, upper-case
    them. *)
Definition ascii_alnum (c : codepoint) : bool :=
  ascii_upper c || ascii_lower c || ascii_digit c.

Definition ascii_to_upper (c : codepoint) : codepoint :=
  if ascii_lower c then (c - 32)%N else c.

Definition spec_cleanup (text : str) : str :=
  map ascii_to_upper (filter ascii_alnum text).

(** The characters of a plate: an upper-case ASCII letter or an ASCII
    digit. *)
Definition plate_char (c : codepoint) : bool := ascii_upper c || ascii_digit c.

(** The zones of step 2, by index. *)
Definition letter_zone (i : nat) : bool := (i <? 2) || ((4 <=? i) && (i <? 6)).
Definition digit_zone (i : nat) : bool := ((2 <=? i) && (i <? 4)) || (6 <=? i).

(** A character that cleanup leaves alone: alphanumeric, and its own upper
    case. *)
Definition clean_char (U : UnicodeData) (c : codepoint) : Prop :=
  isalnum U c = true /\ upper_char U c = [c].

(** The words a regex matches at offset [pos] of the subject, when [rest]
    follows the match. *)
Fixpoint lang (r : regex) (pos : nat) (w rest : str) : Prop :=
  match r with
  | Eps => w = []
  | Cls p => exists c, w = [c] /\ p c = true
  | Seq r1 r2 =>
      exists w1 w2, w = w1 ++ w2
                    /\ lang r1 pos w1 (w2 ++ rest)
                    /\ lang r2 (pos + len w1) w2 rest
  | Alt r1 r2 => lang r1 pos w rest \/ lang r2 pos w rest
  | Bol => w = [] /\ pos = 0
  | Eol => w = [] /\ at_eol rest = true
  end.

(** A run of [m] to [n] characters of one class. *)
Definition run_of (p : codepoint -> bool) (m n : nat) (s : str) : Prop :=
  m <= len s <= n /\ forallb p s = true.

(** The plate grammar in the spec's words: 2 letters, 1-2 digits, 1-2
    letters, 1-4 digits, an optional trailing letter.  A letter is one of
    A-Z; a digit is what the pattern's [\d] accepts. *)
Definition plate_grammar (U : UnicodeData) (s : str) : Prop :=
  exists region serial series number trailing,
    s = region ++ serial ++ series ++ number ++ trailing
    /\ run_of ascii_upper 2 2 region
    /\ run_of (isdecimal U) 1 2 serial
    /\ run_of ascii_upper 1 2 series
    /\ run_of (isdecimal U) 1 4 number
    /\ run_of ascii_upper 0 1 trailing.

(** ** Searching with a regex *)

Module ReSearch.

(** The backtracking matcher, returning what the continuation returns on
    the first path that succeeds: alternatives left to right, a repetition
    as long as possible first. *)
Fixpoint exec {A} (r : regex) (pos : nat) (s : str)
         (k : nat -> str -> option A) : option A :=
  match r with
  | Eps => k pos s
  | Cls p =>
      match s with
      | c :: s' => if p c then k (S pos) s' else None
      | [] => None
      end
  | Seq r1 r2 => exec r1 pos s (fun pos' s' => exec r2 pos' s' k)
  | Alt r1 r2 =>
      match exec r1 pos s k with
      | Some a => Some a
      | None => exec r2 pos s k
      end
  | Bol => if Nat.eqb pos 0 then k pos s else None
  | Eol => if at_eol s then k pos s else None
  end.

(** The length of the match of [r] that starts at offset [pos], where [s]
    is the subject from that offset on. *)
Definition match_at (r : regex) (pos : nat) (s : str) : option nat :=
  exec r pos s (fun pos' _ => Some (pos' - pos)).

(** [re.findall(r, s)] for a pattern without groups that matches no empty
    string: the matches from left to right, each search resuming where the
    previous match ended.  [skip] counts the characters still covered by
    the last match. *)
Fixpoint findall_from (r : regex) (pos skip : nat) (s : str) : list str :=
  match s with
  | [] => []
  | c :: s' =>
      match skip with
      | S skip' => findall_from r (S pos) skip' s'
      | O =>
          match match_at r pos s with
          | Some n => firstn n s :: findall_from r (S pos) (n - 1) s'
          | None => findall_from r (S pos) 0 s'
          end
      end
  end.

Definition findall (r : regex) (s : str) : list str := findall_from r 0 0 s.

End ReSearch.

(** ** ANPRBackend (Trial/anpr_processor.py) *)

Module ANPRBackend.
Import ReSearch.

(** [s.replace(old, new)] for single characters. *)
Definition replace (old new : codepoint) (s : str) : str :=
  map (fun c => if N.eqb c old then new else c) s.

(** [[A-Z0-9]] *)
Definition upper_or_digit (c : codepoint) : bool := ascii_upper c || ascii_digit c.

(** [max(l, key=key)]: the first element whose key no other exceeds;
    [best] is the one held so far. *)
Fixpoint max_from {A} (key : A -> float) (best : A) (l : list A) : A :=
  match l with
  | [] => best
  | x :: l' => max_from key (if float_lt (key best) (key x) then x else best) l'
  end.

Section WithUnicode.

Variable U : UnicodeData.

(** [plate_pattern = r'[A-Z]{2}\d{1,2}[A-Z]{1,2}\d{1,4}'], not anchored. *)
Definition plate_pattern : regex :=
  Seq (times (Cls ascii_upper) 2)
 (Seq (rep (Cls (isdecimal U)) 1 2)
 (Seq (rep (Cls ascii_upper) 1 2)
      (rep (Cls (isdecimal U)) 1 4))).

Definition _post_process_plate_text (text : str) : result str :=
  (* re.sub(r'[^A-Z0-9]', '', text.upper()) *)
  let text := filter upper_or_digit (upper U text) in
  if 6 <=? len text then
    let text := replace 56%N 66%N (replace 49%N 73%N (replace 48%N 79%N text)) in
    let matches := findall plate_pattern text in
    if truthy matches then index matches 0
    else Ok text
  else Ok text.

(** [recognize_plate] from the OCR [result] on.  Each line is a non-empty
    tuple, so [not result[0]] is false whenever [result] has a line; an
    exception in the body is caught and gives the empty result. *)
Definition recognize_plate {B} (ocr_result : list (B * str * float)) : str * float :=
  if negb (truthy ocr_result) then ([], 0%Q) else
  let texts_and_confidences :=
    map (fun line => (snd (fst line), snd line)) ocr_result in
  match texts_and_confidences with
  | [] => ([], 0%Q)
  | x :: l =>
      let '(text, conf) := max_from snd x l in
      match _post_process_plate_text text with
      | Ok text => (text, conf)
      | Raise _ => ([], 0%Q)
      end
  end.

End WithUnicode.

(** [detect_color] *)

(** A pixel of the HSV image: hue, saturation, value. *)
Definition pixel : Type := N * N * N.

(** [self.color_ranges], in the order of the dictionary. *)
Definition color_ranges : list (string * list pixel) :=
  [ ("white",  [(0, 0, 200); (180, 30, 255)]);
    ("black",  [(0, 0, 0); (180, 255, 30)]);
    ("red",    [(0, 70, 50); (10, 255, 255); (170, 70, 50); (180, 255, 255)]);
    ("blue",   [(100, 50, 50); (130, 255, 255)]);
    ("yellow", [(20, 50, 50); (35, 255, 255)]);
    ("green",  [(35, 50, 50); (85, 255, 255)]);
    ("silver", [(0, 0, 140); (180, 30, 200)]);
    ("grey",   [(0, 0, 70); (180, 30, 140)]) ]%N%string.

(** One pixel of [cv2.inRange(hsv, lo, hi)]: every channel within its
    bounds, both included. *)
Definition in_range (lo hi px : pixel) : bool :=
  match lo, hi, px with
  | (l1, l2, l3), (h1, h2, h3), (p1, p2, p3) =>
      ((l1 <=? p1) && (p1 <=? h1) && ((l2 <=? p2) && (p2 <=? h2))
       && ((l3 <=? p3) && (p3 <=? h3)))%N
  end.

(** One pixel of the mask of a colour: the ranges taken two by two and
    or-ed (a single pair is the mask of that pair). *)
Fixpoint mask (ranges : list pixel) (px : pixel) : bool :=
  match ranges with
  | lo :: hi :: ranges' => in_range lo hi px || mask ranges' px
  | _ => false
  end.

(** [cv2.countNonZero(mask)] *)
Definition count_pixels (ranges : list pixel) (hsv : list pixel) : nat :=
  len (filter (mask ranges) hsv).

(** The loop over the colours: the colour and count held after each. *)
Fixpoint color_loop (table : list (string * list pixel)) (hsv : list pixel)
         (max_pixels : nat) (detected_color : string) : nat * string :=
  match table with
  | [] => (max_pixels, detected_color)
  | (color, ranges) :: table' =>
      let pixels := count_pixels ranges hsv in
      if max_pixels <? pixels
      then color_loop table' hsv pixels color
      else color_loop table' hsv max_pixels detected_color
  end.

(** [detect_color] on the HSV image, given as its pixels (their number is
    [hsv.shape[0] * hsv.shape[1]]).  The confidence is the quotient that
    the float division rounds; with no pixel the division raises, which is
    caught. *)
Definition detect_color (hsv : list pixel) : string * float :=
  let '(max_pixels, detected_color) := color_loop color_ranges hsv 0 "unknown"%string in
  match len hsv with
  | O => ("unknown"%string, 0%Q)
  | S _ => (detected_color,
            (Z.of_nat max_pixels # Pos.of_nat (len hsv))%Q)
  end.

End ANPRBackend.

(** ** ModelHandler, further methods *)

Module Handler.

(** The padded box of [detect_vehicles] for a detection [(x1, y1, x2, y2)]
    in an image of the given width and height. *)
Definition pad_box (width height : Z) (box : Z * Z * Z * Z) : Z * Z * Z * Z :=
  match box with
  | (x1, y1, x2, y2) =>
      let padding := 10%Z in
      (Z.max 0 (x1 - padding), Z.max 0 (y1 - padding),
       Z.min width (x2 + padding), Z.min height (y2 + padding))
  end.

(** [recognize_plate] from the OCR [results] on: [None] when there is
    no result or the best text is not valid. *)
Definition recognize_plate (U : UnicodeData) {B} (results : list (B * str * float))
  : option str :=
  match results with
  | [] => None
  | x :: l =>
      let best_result := ANPRBackend.max_from snd x l in
      let text := snd (fst best_result) in
      let text := filter (isalnum U) text in
      if ModelHandler._is_valid_plate U text then Some text else None
  end.

End Handler.

(** What the pattern of ANPRBackend describes: 2 letters, 1-2 digits, 1-2
    letters, 1-4 digits, with no trailing letter. *)
Definition backend_grammar (U : UnicodeData) (s : str) : Prop :=
  exists region serial series number,
    s = region ++ serial ++ series ++ number
    /\ run_of ascii_upper 2 2 region
    /\ run_of (isdecimal U) 1 2 serial
    /\ run_of ascii_upper 1 2 series
    /\ run_of (isdecimal U) 1 4 number.

(** The next character, if any, is not of the class: a greedy run of the
    class ends here. *)
Definition stops (p : codepoint -> bool) (rest : str) : Prop :=
  match rest with
  | [] => True
  | c :: _ => p c = false
  end.

(** The two rewritings of [_post_process_plate_text]: the text upper-cased
    and stripped of all but A-Z and 0-9, and the three replacements. *)
Definition stripped (U : UnicodeData) (text : str) : str :=
  filter ANPRBackend.upper_or_digit (upper U text).

Definition replaced (text : str) : str :=
  ANPRBackend.replace 56%N 66%N
    (ANPRBackend.replace 49%N 73%N (ANPRBackend.replace 48%N 79%N text)).

(** ** evaluate_model.py *)

(** [a == b] on strings. *)
Fixpoint str_eqb (a b : str) : bool :=
  match a, b with
  | [], [] => true
  | x :: a', y :: b' => N.eqb x y && str_eqb a' b'
  | _, _ => false
  end.

Module Evaluate.

Inductive exn := ValueError | IndexError.

(** What a call does: it raises or it returns. *)
Inductive outcome (A : Type) : Type :=
| Raised (e : exn)
| Returned (a : A).
Arguments Raised {A} e.
Arguments Returned {A} a.

Definition andthen {A B} (m : outcome A) (k : A -> outcome B) : outcome B :=
  match m with
  | Raised e => Raised e
  | Returned a => k a
  end.

(** [s[i]] *)
Definition item (s : str) (i : nat) : outcome codepoint :=
  match nth_error s i with
  | Some c => Returned c
  | None => Raised IndexError
  end.

(** [a / b] on integers, [b] not 0: the quotient, which the float rounds. *)
Definition ratio (a b : nat) : float := (Z.of_nat a # Pos.of_nat b)%Q.

Record metrics := {
  exact_accuracy : float;
  character_accuracy : float;
  correct : nat;
  total : nat;
  character_correct : nat;
  total_characters : nat
}.

(** [for i in range(min_len): if pred[i] == gt[i]: character_correct += 1],
    with [n] rounds to go from index [i]. *)
Fixpoint char_loop (pred gt : str) (i n character_correct : nat) : outcome nat :=
  match n with
  | O => Returned character_correct
  | S n' =>
      andthen (item pred i) (fun a =>
      andthen (item gt i) (fun b =>
      char_loop pred gt (S i) n'
        (if N.eqb a b then S character_correct else character_correct)))
  end.

(** [for pred, gt in zip(predictions, ground_truth): ...] *)
Fixpoint pair_loop (pairs : list (str * str))
         (correct character_correct total_characters : nat)
  : outcome (nat * nat * nat) :=
  match pairs with
  | [] => Returned (correct, character_correct, total_characters)
  | (pred, gt) :: rest =>
      let correct := if str_eqb pred gt then S correct else correct in
      let min_len := Nat.min (len pred) (len gt) in
      andthen (char_loop pred gt 0 min_len character_correct)
        (fun character_correct =>
           pair_loop rest correct character_correct
             (total_characters + Nat.max (len pred) (len gt)))
  end.

Definition calculate_accuracy (predictions ground_truth : list str) : outcome metrics :=
  if negb (len predictions =? len ground_truth) then Raised ValueError else
  andthen (pair_loop (combine predictions ground_truth) 0 0 0)
    (fun counts =>
       match counts with
       | (correct, character_correct, total_characters) =>
           let exact_accuracy :=
             if truthy predictions then ratio correct (len predictions) else 0%Q in
           let character_accuracy :=
             if negb (total_characters =? 0)
             then ratio character_correct total_characters else 0%Q in
           Returned {| exact_accuracy := exact_accuracy;
                       character_accuracy := character_accuracy;
                       correct := correct;
                       total := len predictions;
                       character_correct := character_correct;
                       total_characters := total_characters |}
       end).

End Evaluate.

(** ** DatasetLoader (Trial/integrated_anpr/utils/dataset_loader.py) *)

Module DatasetLoader.

(** A line of the label file: a JSON object with string values, its keys
    distinct. *)
Definition item := list (str * str).

(** [item.get(key, default)] *)
Definition get (d : item) (key default : str) : str :=
  match find (fun kv => str_eqb (fst kv) key) d with
  | Some kv => snd kv
  | None => default
  end.

(** [d[k] = d.get(k, 0) + 1] on a dictionary of counts, which keeps its
    keys in the order they came in. *)
Fixpoint bump {K} (eqb : K -> K -> bool) (k : K) (d : list (K * nat)) : list (K * nat) :=
  match d with
  | [] => [(k, 1)]
  | (k', v) :: d' =>
      if eqb k k' then (k', S v) :: d' else (k', v) :: bump eqb k d'
  end.

(** [d.get(k)] on a dictionary of counts. *)
Fixpoint count_of {K} (eqb : K -> K -> bool) (k : K) (d : list (K * nat)) : option nat :=
  match d with
  | [] => None
  | (k', v) :: d' => if eqb k k' then Some v else count_of eqb k d'
  end.

(** The pattern of a label: a letter gives "A", a digit "D", any other
    character itself. *)
Definition pattern_of (U : UnicodeData) (label : str) : str :=
  map (fun char =>
         if isalpha U char then 65%N
         else if isdigit U char then 68%N
         else char) label.

(** The dictionary returned: with [count] alone when there is no data. *)
Record statistics := {
  count : nat;
  label_lengths : option (list (nat * nat));
  patterns : option (list (str * nat))
}.

Definition get_dataset_statistics (U : UnicodeData) (data : list item) : statistics :=
  if negb (truthy data)
  then {| count := 0; label_lengths := None; patterns := None |}
  else
    let label_lengths :=
      fold_left (fun d it => bump Nat.eqb (len (get it (lit "label") [])) d) data [] in
    let patterns :=
      fold_left (fun d it => bump str_eqb (pattern_of U (get it (lit "label") [])) d)
                data [] in
    {| count := len data;
       label_lengths := Some label_lengths;
       patterns := Some patterns |}.

End DatasetLoader.

(** ** ANPRApp, dataset navigation (Trial/integrated_anpr/main_app.py) *)

Module ANPRApp.

(** The fields the navigation reads and writes: the loaded data ([None]
    while [self.dataset] is [None]), the index and the two buttons. *)
Record state := {
  dataset : option (list DatasetLoader.item);
  current_dataset_index : Z;
  prev_enabled : bool;
  next_enabled : bool
}.

(** After [__init__] and [setup_ui]. *)
Definition init : state :=
  {| dataset := None; current_dataset_index := 0;
     prev_enabled := false; next_enabled := false |}.

(** [not self.dataset or not self.dataset.get_data()] *)
Definition no_data (s : state) : bool :=
  match dataset s with
  | None => true
  | Some data => negb (truthy data)
  end.

(** [browse_dataset] when a file was chosen and [DatasetLoader] read
    [data] from it. *)
Definition browse_dataset (data : list DatasetLoader.item) (s : state) : state :=
  if truthy data
  then {| dataset := Some data; current_dataset_index := 0;
          prev_enabled := false; next_enabled := true |}
  else {| dataset := Some data; current_dataset_index := 0;
          prev_enabled := prev_enabled s; next_enabled := next_enabled s |}.

Definition previous_image (s : state) : state :=
  if no_data s then s else
  if (0 <? current_dataset_index s)%Z then
    let index := (current_dataset_index s - 1)%Z in
    {| dataset := dataset s; current_dataset_index := index;
       prev_enabled := (0 <? index)%Z; next_enabled := true |}
  else s.

Definition next_image (s : state) : state :=
  if no_data s then s else
  match dataset s with
  | None => s
  | Some data =>
      if (current_dataset_index s <? Z.of_nat (len data) - 1)%Z then
        let index := (current_dataset_index s + 1)%Z in
        {| dataset := dataset s; current_dataset_index := index;
           prev_enabled := true;
           next_enabled := (index <? Z.of_nat (len data) - 1)%Z |}
      else s
  end.

(** What the user does. *)
Inductive event :=
| Browse (data : list DatasetLoader.item)
| Previous
| Next.

Definition step (s : state) (e : event) : state :=
  match e with
  | Browse data => browse_dataset data s
  | Previous => previous_image s
  | Next => next_image s
  end.

Definition run (events : list event) : state := fold_left step events init.

End ANPRApp.

(** ** Counting, for the statements about the metrics and the statistics *)

(** The positions at which two strings carry the same character. *)
Fixpoint agree (a b : str) : nat :=
  match a, b with
  | x :: a', y :: b' => (if N.eqb x y then 1 else 0) + agree a' b'
  | _, _ => 0
  end.

Definition exact_pairs (pairs : list (str * str)) : nat :=
  len (filter (fun pg => str_eqb (fst pg) (snd pg)) pairs).

Definition agree_sum (pairs : list (str * str)) : nat :=
  list_sum (map (fun pg => agree (fst pg) (snd pg)) pairs).

Definition max_sum (pairs : list (str * str)) : nat :=
  list_sum (map (fun pg => Nat.max (len (fst pg)) (len (snd pg))) pairs).

(** How many elements have the key [k]. *)
Definition occurrences {A K} (eqb : K -> K -> bool) (key : A -> K) (k : K) (l : list A) : nat :=
  len (filter (fun x => eqb k (key x)) l).

(** The label of an item, as [get_dataset_statistics] reads it. *)
Definition label_of (it : DatasetLoader.item) : str :=
  DatasetLoader.get it (lit "label") [].

(** A label file of three lines, for examples. *)
Definition sample_data : list DatasetLoader.item :=
  [ [(lit "img_path", lit "a.jpg"); (lit "label", lit "KA05MN1234")];
    [(lit "img_path", lit "b.jpg"); (lit "label", lit "MH12AB0001")];
    [(lit "img_path", lit "c.jpg")] ].

(** What the navigation keeps true: the index stays inside the data, the
    Previous button is enabled exactly away from the first image, and the
    Next button is disabled only on the last. *)
Definition nav_ok (s : ANPRApp.state) : Prop :=
  match ANPRApp.dataset s with
  | None => ANPRApp.current_dataset_index s = 0%Z
  | Some data =>
      (0 <= ANPRApp.current_dataset_index s)%Z
      /\ (data = [] -> ANPRApp.current_dataset_index s = 0%Z)
      /\ (data <> [] ->
          (ANPRApp.current_dataset_index s < Z.of_nat (len data))%Z
          /\ (ANPRApp.prev_enabled s = true <-> (0 < ANPRApp.current_dataset_index s)%Z)
          /\ (ANPRApp.next_enabled s = false ->
              ANPRApp.current_dataset_index s = (Z.of_nat (len data) - 1)%Z))
  end.

(** ** Basic facts *)

Lemma getitem_contains d k :
  contains d k = true -> getitem d k = Ok (get d k k).
Proof.
  unfold contains, getitem, get. destruct (lookup d k); [reflexivity | discriminate].
Qed.

Lemma correct_char_ok U n i c : correct_char U n i c = Ok (corrected U n i c).
Proof.
  unfold correct_char, corrected.
  destruct (i <? 2); [ destruct (isdigit U c); reflexivity | ].
  destruct (i <? 4).
  { destruct (isalpha U c); simpl; [ | reflexivity ].
    destruct (contains corrections c) eqn:E; [ now apply getitem_contains | reflexivity ]. }
  destruct (i <? 6); [ destruct (isdigit U c && (8 <? n)); reflexivity | ].
  destruct (isalpha U c); simpl; [ | reflexivity ].
  destruct (contains corrections c) eqn:E; [ now apply getitem_contains | reflexivity ].
Qed.

Lemma correct_loop_ok U n rest : forall i acc,
  correct_loop U n i rest acc = Ok (acc ++ imap_from (corrected U n) i rest).
Proof.
  induction rest as [ | c rest IH ]; intros i acc; simpl.
  - now rewrite app_nil_r.
  - rewrite correct_char_ok. simpl. rewrite IH, <- app_assoc. reflexivity.
Qed.

Lemma correct_loop_correct U text :
  correct_loop U (len text) 0 text [] = Ok (correct U text).
Proof. apply correct_loop_ok. Qed.

Lemma imap_from_length {A B} (f : nat -> A -> B) l : forall i,
  len (imap_from f i l) = len l.
Proof.
  induction l as [ | x l IH ]; intros i; simpl; [ reflexivity | ].
  unfold len in *. now rewrite IH.
Qed.

Lemma imap_from_nth {A B} (f : nat -> A -> B) l : forall i j,
  nth_error (imap_from f i l) j = option_map (f (i + j)) (nth_error l j).
Proof.
  induction l as [ | x l IH ]; intros i j.
  - now destruct j.
  - destruct j as [ | j ]; simpl.
    + now rewrite Nat.add_0_r.
    + rewrite IH. now rewrite Nat.add_succ_r.
Qed.

Lemma correct_length U text : len (correct U text) = len text.
Proof. apply imap_from_length. Qed.

Lemma correct_nth U text j :
  nth_error (correct U text) j
  = option_map (corrected U (len text) j) (nth_error text j).
Proof. unfold correct. now rewrite imap_from_nth. Qed.

(** [_post_process_text] never raises, and is the composition of the steps. *)
Lemma post_process_text_eq U text :
  _post_process_text U text
  = Ok (if len (cleanup U text) <? 4 then []
        else validate U (correct U (cleanup U text))).
Proof.
  unfold _post_process_text. destruct text as [ | c text ]; [ reflexivity | ].
  cbn [truthy negb]. fold (cleanup U (c :: text)).
  destruct (len (cleanup U (c :: text)) <? 4); [ reflexivity | ].
  rewrite correct_loop_correct. cbn [bind]. unfold validate, fallback.
  destruct (re_match _ _); [ reflexivity | ].
  destruct (_ && _); reflexivity.
Qed.

(** ** The stable descending sort and its first element *)

Section SortFacts.

Variable A : Type.
Variable key : A -> float.

Lemma float_lt_true x y : float_lt x y = true -> (x < y)%Q.
Proof.
  unfold float_lt. intros H. apply Qnot_le_lt. intros Hle.
  apply Qle_bool_iff in Hle. rewrite Hle in H. discriminate.
Qed.

Lemma float_lt_false x y : float_lt x y = false -> (y <= x)%Q.
Proof.
  unfold float_lt. intros H. apply Qle_bool_iff.
  destruct (Qle_bool y x); [ reflexivity | discriminate ].
Qed.

Lemma hd_insert_desc x l :
  hd_error (insert_desc key x l)
  = match hd_error l with
    | None => Some x
    | Some y => if float_lt (key x) (key y) then Some y else Some x
    end.
Proof.
  destruct l as [ | y l ]; simpl; [ reflexivity | ].
  destruct (float_lt (key x) (key y)); reflexivity.
Qed.

Lemma hd_sort_reverse l : hd_error (sort_reverse key l) = first_max key l.
Proof.
  induction l as [ | x l IH ]; simpl; [ reflexivity | ].
  now rewrite hd_insert_desc, IH.
Qed.

(** The model of [list.sort] is a sort: a rearrangement of the list, in
    descending order of key. *)
Lemma insert_desc_perm x l : Permutation (x :: l) (insert_desc key x l).
Proof.
  induction l as [ | y l IH ]; simpl; [ reflexivity | ].
  destruct (float_lt (key x) (key y)); [ | reflexivity ].
  rewrite perm_swap. now apply perm_skip.
Qed.

Lemma sort_reverse_perm l : Permutation l (sort_reverse key l).
Proof.
  induction l as [ | x l IH ]; simpl; [ constructor | ].
  rewrite <- insert_desc_perm. now apply perm_skip.
Qed.

Lemma insert_desc_sorted x l :
  Sorted (fun a b => (key b <= key a)%Q) l ->
  Sorted (fun a b => (key b <= key a)%Q) (insert_desc key x l).
Proof.
  induction 1 as [ | y l Hs IH Hhd ]; simpl; [ repeat constructor | ].
  destruct (float_lt (key x) (key y)) eqn:L.
  - constructor; [ exact IH | ].
    apply float_lt_true in L.
    destruct l as [ | z l ]; simpl.
    + constructor. now apply Qlt_le_weak.
    + destruct (float_lt (key x) (key z)).
      * constructor. now inversion Hhd.
      * constructor. now apply Qlt_le_weak.
  - apply float_lt_false in L. repeat constructor; assumption.
Qed.

Lemma sort_reverse_sorted l :
  Sorted (fun a b => (key b <= key a)%Q) (sort_reverse key l).
Proof.
  induction l as [ | x l IH ]; simpl; [ constructor | now apply insert_desc_sorted ].
Qed.

Lemma first_max_none l : first_max key l = None -> l = [].
Proof.
  destruct l as [ | x l ]; simpl; [ reflexivity | ].
  destruct (first_max key l); [ destruct (float_lt _ _) | ]; discriminate.
Qed.

(** [first_max] is at some index [i]; nothing has a larger key, and
    everything before [i] has a strictly smaller one. *)
Lemma first_max_spec l x :
  first_max key l = Some x ->
  exists i,
    nth_error l i = Some x
    /\ (forall j y, nth_error l j = Some y -> (key y <= key x)%Q)
    /\ (forall j y, j < i -> nth_error l j = Some y -> (key y < key x)%Q).
Proof.
  revert x. induction l as [ | a l IH ]; intros x; simpl; [ discriminate | ].
  destruct (first_max key l) as [ y | ] eqn:E.
  - destruct (IH y eq_refl) as (i & Hi & Hmax & Hbefore).
    destruct (float_lt (key a) (key y)) eqn:L; intros [= <-].
    + apply float_lt_true in L. exists (S i). split; [ exact Hi | split ].
      * intros [ | j ] z; simpl; [ intros [= <-]; now apply Qlt_le_weak | apply Hmax ].
      * intros [ | j ] z Hj; simpl; [ now intros [= <-] | ].
        apply Hbefore. lia.
    + apply float_lt_false in L. exists 0. split; [ reflexivity | split ].
      * intros [ | j ] z; simpl; [ intros [= <-]; apply Qle_refl | ].
        intros Hz. eapply Qle_trans; [ eapply Hmax; eassumption | exact L ].
      * intros j z Hj. lia.
  - intros [= <-]. apply first_max_none in E. subst l.
    exists 0. split; [ reflexivity | split ].
    + intros [ | [ | j ] ] z; simpl; try discriminate. intros [= <-]. apply Qle_refl.
    + intros j z Hj. lia.
Qed.

End SortFacts.

(** ** [recognize_plate] as a function of the surviving candidates *)

Lemma collect_ok U B (all_results : list (B * str * float)) : forall candidates,
  collect U all_results candidates = Ok (candidates ++ accepted U all_results).
Proof.
  induction all_results as [ | [[bbox text] conf] rest IH ]; intros acc.
  - simpl. now rewrite app_nil_r.
  - cbn [collect accepted flat_map fst snd].
    rewrite post_process_text_eq. cbn [bind]. rewrite IH. f_equal.
    destruct (if len (cleanup U text) <? 4 then [] else _) as [ | c t ]; cbn [truthy].
    + reflexivity.
    + now rewrite <- app_assoc.
Qed.

Lemma recognize_plate_eq U B (all_results : list (B * str * float)) :
  recognize_plate U all_results
  = Ok (match first_max snd (accepted U all_results) with
        | Some c => c
        | None => ([], 0%Q)
        end).
Proof.
  unfold recognize_plate. destruct all_results as [ | r rest ]; [ reflexivity | ].
  cbn [truthy negb]. rewrite collect_ok. cbn [bind app].
  rewrite <- hd_sort_reverse.
  destruct (sort_reverse snd (accepted U (r :: rest))) as [ | [t c] l ]; reflexivity.
Qed.

Lemma survivors_cons U text conf rest :
  survivors U ((text, conf) :: rest)
  = match _post_process_text U text with
    | Ok (c :: t) => [(c :: t, conf)]
    | _ => []
    end ++ survivors U rest.
Proof. reflexivity. Qed.

Lemma normalize_eq U candidates :
  normalize U candidates
  = Ok (match first_max snd (survivors U candidates) with
        | Some c => c
        | None => ([], 0%Q)
        end).
Proof. apply recognize_plate_eq. Qed.

Lemma survivors_app U l1 l2 :
  survivors U (l1 ++ l2) = survivors U l1 ++ survivors U l2.
Proof.
  unfold survivors, accepted. now rewrite map_app, flat_map_app.
Qed.

Lemma survivors_nonempty U l t c : In (t, c) (survivors U l) -> t <> [].
Proof.
  induction l as [ | [text conf] l IH ]; [ intros [] | ].
  rewrite survivors_cons. intros H. apply in_app_or in H. destruct H as [ H | H ]; [ | auto ].
  destruct (_post_process_text U text) as [ [ | x s ] | e ]; try contradiction.
  destruct H as [ [= <- <-] | [] ]. discriminate.
Qed.

Lemma survivors_origin U l t c :
  In (t, c) (survivors U l) ->
  exists raw, In (raw, c) l /\ _post_process_text U raw = Ok t.
Proof.
  induction l as [ | [text conf] l IH ]; [ intros [] | ].
  rewrite survivors_cons. intros H. apply in_app_or in H. destruct H as [ H | H ].
  - destruct (_post_process_text U text) as [ [ | x s ] | e ] eqn:E; try contradiction.
    destruct H as [ [= <- <-] | [] ]. exists text. split; [ now left | exact E ].
  - destruct (IH H) as (raw & Hin & Hraw). exists raw. split; [ now right | exact Hraw ].
Qed.

(** ** The matcher against the language of a regex *)

Lemma run_lang r : forall pos s k,
  run r pos s k = true
  <-> exists w rest, s = w ++ rest /\ lang r pos w rest /\ k (pos + len w) rest = true.
Proof.
  induction r as [ | p | r1 IH1 r2 IH2 | r1 IH1 r2 IH2 | | ]; intros pos s k; simpl.
  - split.
    + intros H. exists [], s. simpl. now rewrite Nat.add_0_r.
    + intros (w & rest & -> & -> & H). simpl in H. now rewrite Nat.add_0_r in H.
  - split.
    + destruct s as [ | c s ]; [ discriminate | ].
      intros H. apply andb_true_iff in H. destruct H as [Hp Hk].
      exists [c], s. simpl. rewrite Nat.add_1_r. eauto.
    + intros (w & rest & -> & (c & -> & Hp) & Hk). simpl in *.
      rewrite Nat.add_1_r in Hk. now rewrite Hp, Hk.
  - rewrite IH1. split.
    + intros (w1 & rest1 & -> & L1 & H). apply IH2 in H.
      destruct H as (w2 & rest & -> & L2 & Hk).
      exists (w1 ++ w2), rest. rewrite app_assoc. split; [ reflexivity | split ].
      * exists w1, w2. auto.
      * unfold len in *. now rewrite length_app, Nat.add_assoc.
    + intros (w & rest & -> & (w1 & w2 & -> & L1 & L2) & Hk).
      exists w1, (w2 ++ rest). rewrite app_assoc. split; [ reflexivity | split; [ exact L1 | ] ].
      apply IH2. exists w2, rest. split; [ reflexivity | split; [ exact L2 | ] ].
      unfold len in *. now rewrite length_app, Nat.add_assoc in Hk.
  - rewrite orb_true_iff, IH1, IH2. split.
    + intros [ (w & rest & -> & L & Hk) | (w & rest & -> & L & Hk) ];
        exists w, rest; auto.
    + intros (w & rest & -> & [ L | L ] & Hk); [ left | right ]; exists w, rest; auto.
  - split.
    + intros H. apply andb_true_iff in H. destruct H as [H0 Hk].
      apply Nat.eqb_eq in H0. exists [], s. simpl. rewrite Nat.add_0_r. auto.
    + intros (w & rest & -> & (-> & ->) & Hk). simpl in *. exact Hk.
  - split.
    + intros H. apply andb_true_iff in H. destruct H as [H0 Hk].
      exists [], s. simpl. rewrite Nat.add_0_r. auto.
    + intros (w & rest & -> & (-> & He) & Hk). simpl in *.
      rewrite Nat.add_0_r in Hk. now rewrite He, Hk.
Qed.

Lemma re_match_lang r s :
  re_match r s = true <-> exists w rest, s = w ++ rest /\ lang r 0 w rest.
Proof.
  unfold re_match. rewrite run_lang. split.
  - intros (w & rest & E & L & _). eauto.
  - intros (w & rest & E & L). exists w, rest. auto.
Qed.

Lemma lang_times p m : forall pos w rest,
  lang (times (Cls p) m) pos w rest <-> run_of p m m w.
Proof.
  unfold run_of.
  induction m as [ | m IH ]; intros pos w rest; simpl.
  - split.
    + intros ->. simpl. split; [ lia | reflexivity ].
    + intros [Hl _]. destruct w; [ reflexivity | simpl in Hl; lia ].
  - split.
    + intros (w1 & w2 & -> & (c & -> & Hp) & L). apply IH in L.
      simpl. rewrite Hp. simpl. split; [ lia | tauto ].
    + intros [Hl Hf]. destruct w as [ | c w ]; [ simpl in Hl; lia | ].
      simpl in Hf, Hl. apply andb_true_iff in Hf. destruct Hf as [Hp Hf].
      exists [c], w. split; [ reflexivity | split; [ eauto | ] ].
      apply IH. split; [ lia | exact Hf ].
Qed.

Lemma lang_upto p n : forall pos w rest,
  lang (upto (Cls p) n) pos w rest <-> run_of p 0 n w.
Proof.
  unfold run_of.
  induction n as [ | n IH ]; intros pos w rest; simpl.
  - split.
    + intros ->. simpl. split; [ lia | reflexivity ].
    + intros [Hl _]. destruct w; [ reflexivity | simpl in Hl; lia ].
  - split.
    + intros [ (w1 & w2 & -> & (c & -> & Hp) & L) | -> ].
      * apply IH in L. simpl. rewrite Hp. simpl. split; [ lia | tauto ].
      * simpl. split; [ lia | reflexivity ].
    + intros [Hl Hf]. destruct w as [ | c w ]; [ now right | left ].
      simpl in Hf, Hl. apply andb_true_iff in Hf. destruct Hf as [Hp Hf].
      exists [c], w. split; [ reflexivity | split; [ eauto | ] ].
      apply IH. split; [ lia | exact Hf ].
Qed.

Lemma lang_rep p m n : m <= n -> forall pos w rest,
  lang (rep (Cls p) m n) pos w rest <-> run_of p m n w.
Proof.
  intros Hmn pos w rest. unfold rep. cbn [lang]. split.
  - intros (w1 & w2 & -> & L1 & L2). apply lang_times in L1. apply lang_upto in L2.
    unfold run_of, len in *. rewrite length_app, forallb_app.
    destruct L1 as [? ->], L2 as [? ->]. split; [ lia | reflexivity ].
  - intros [Hl Hf]. exists (firstn m w), (skipn m w).
    rewrite firstn_skipn. split; [ reflexivity | ].
    rewrite <- (firstn_skipn m w), forallb_app in Hf.
    apply andb_true_iff in Hf. destruct Hf as [Hf1 Hf2].
    split; [ apply lang_times | apply lang_upto ]; unfold run_of, len in *.
    + rewrite length_firstn. split; [ lia | exact Hf1 ].
    + rewrite length_skipn. split; [ lia | exact Hf2 ].
Qed.

(** What [plate_pattern] matches: a plate, then the end of the subject or
    its closing newline. *)
Lemma plate_pattern_lang U w rest :
  lang (plate_pattern U) 0 w rest <-> plate_grammar U w /\ at_eol rest = true.
Proof.
  unfold plate_pattern, plate_grammar, opt. cbn [lang]. split.
  - intros (w0 & v0 & -> & (-> & _) & w1 & v1 & -> & L1 & w2 & v2 & -> & L2
            & w3 & v3 & -> & L3 & w4 & v4 & -> & L4 & w5 & v5 & -> & L5 & -> & He).
    apply lang_times in L1. apply lang_rep in L2; [ | lia ].
    apply lang_rep in L3; [ | lia ]. apply lang_rep in L4; [ | lia ].
    apply lang_upto in L5. split; [ | exact He ].
    exists w1, w2, w3, w4, w5. simpl. rewrite app_nil_r. auto 10.
  - intros [(a & b & c & d & e & -> & Ha & Hb & Hc & Hd & He) Hr].
    exists [], (a ++ b ++ c ++ d ++ e). split; [ reflexivity | split; [ auto | ] ].
    exists a, (b ++ c ++ d ++ e). split; [ reflexivity | split; [ now apply lang_times | ] ].
    exists b, (c ++ d ++ e). split; [ reflexivity | split; [ apply lang_rep; [ lia | exact Hb ] | ] ].
    exists c, (d ++ e). split; [ reflexivity | split; [ apply lang_rep; [ lia | exact Hc ] | ] ].
    exists d, e. split; [ reflexivity | split; [ apply lang_rep; [ lia | exact Hd ] | ] ].
    exists e, []. split; [ now rewrite app_nil_r | split; [ now apply lang_upto | auto ] ].
Qed.

Lemma at_eol_cases rest :
  at_eol rest = true <-> rest = [] \/ rest = [newline].
Proof.
  unfold at_eol. destruct rest as [ | c [ | c' rest ] ].
  - split; auto.
  - rewrite N.eqb_eq. split; [ intros ->; auto | intros [ H | [= ->] ]; [ discriminate | reflexivity ] ].
  - split; [ discriminate | intros [ H | H ]; discriminate ].
Qed.

Lemma re_match_plate U s :
  re_match (plate_pattern U) s = true
  <-> plate_grammar U s \/ exists w, s = w ++ [newline] /\ plate_grammar U w.
Proof.
  rewrite re_match_lang. split.
  - intros (w & rest & -> & L). apply plate_pattern_lang in L. destruct L as [G He].
    apply at_eol_cases in He. destruct He as [ -> | -> ].
    + left. now rewrite app_nil_r.
    + right. eauto.
  - intros [ G | (w & -> & G) ].
    + exists s, []. rewrite app_nil_r. split; [ reflexivity | ].
      apply plate_pattern_lang. auto.
    + exists w, [newline]. split; [ reflexivity | ].
      apply plate_pattern_lang. split; [ exact G | reflexivity ].
Qed.

(** * Properties of the normalizer *)

(** ** Totality and the empty result *)

(** C1: the normalizer is total.  Whatever the text (empty, non-ASCII under
    any Unicode database, of any length) [_post_process_text] returns a
    string, and whatever the candidates [recognize_plate] and [normalize]
    return a (text, confidence) pair: neither the guarded dictionary
    subscript nor [candidates[0]] ever raises.  The functions are structural
    recursions, so they return after finitely many steps. *)
Theorem normalize_total (U : UnicodeData) :
  (forall text, exists t, _post_process_text U text = Ok t)
  /\ (forall B (all_results : list (B * str * float)),
         exists t conf, recognize_plate U all_results = Ok (t, conf))
  /\ (forall candidates, exists t conf, normalize U candidates = Ok (t, conf)).
Proof.
  split; [ | split ].
  - intros text. rewrite post_process_text_eq. eauto.
  - intros B all_results. rewrite recognize_plate_eq.
    destruct (first_max snd (accepted U all_results)) as [ [t c] | ]; eauto.
  - intros candidates. rewrite normalize_eq.
    destruct (first_max snd (survivors U candidates)) as [ [t c] | ]; eauto.
Qed.

Lemma survivors_all_rejected U candidates :
  (forall text conf, In (text, conf) candidates -> _post_process_text U text = Ok []) ->
  survivors U candidates = [].
Proof.
  induction candidates as [ | [text conf] l IH ]; intros H; [ reflexivity | ].
  rewrite survivors_cons, (H text conf) by now left.
  apply IH. intros t c Hin. apply (H t c). now right.
Qed.

(** C2: with no candidate, or with every candidate rejected (its processed
    text is empty), [normalize] returns the empty text with confidence 0.0,
    as a value and not as an exception. *)
Theorem normalize_no_candidate (U : UnicodeData) :
  normalize U [] = Ok ([], 0%Q)
  /\ forall candidates,
       (forall text conf, In (text, conf) candidates ->
                          _post_process_text U text = Ok []) ->
       normalize U candidates = Ok ([], 0%Q).
Proof.
  split; [ reflexivity | ].
  intros candidates H. rewrite normalize_eq, survivors_all_rejected by exact H.
  reflexivity.
Qed.

Lemma normalize_no_candidate_witness :
  normalize ucd_excerpt [(lit "AB", (99 # 100)%Q); (lit "12-34", 1%Q)]
  = Ok ([], 0%Q).
Proof.
  apply (proj2 (normalize_no_candidate ucd_excerpt)).
  intros text conf [ [= <- <-] | [ [= <- <-] | [] ] ]; reflexivity.
Defined.

(** ** Selection *)

(** C7: among the surviving candidates, taken in input order, [normalize]
    returns one of highest confidence, and the earliest of those: no
    survivor has a larger confidence and every survivor before it has a
    strictly smaller one.  With no survivor the result is the empty text
    with confidence 0.0. *)
Theorem normalize_selects_first_best (U : UnicodeData) (candidates : list (str * float)) :
  (survivors U candidates = [] /\ normalize U candidates = Ok ([], 0%Q))
  \/ exists i t conf,
       nth_error (survivors U candidates) i = Some (t, conf)
       /\ normalize U candidates = Ok (t, conf)
       /\ (forall j t' conf', nth_error (survivors U candidates) j = Some (t', conf') ->
                              (conf' <= conf)%Q)
       /\ (forall j t' conf', j < i ->
                              nth_error (survivors U candidates) j = Some (t', conf') ->
                              (conf' < conf)%Q).
Proof.
  rewrite normalize_eq.
  destruct (first_max snd (survivors U candidates)) as [ [t c] | ] eqn:E.
  - right. apply first_max_spec in E. destruct E as (i & Hi & Hmax & Hbefore).
    exists i, t, c. split; [ exact Hi | split; [ reflexivity | split ] ].
    + intros j t' c' Hj. apply (Hmax j (t', c') Hj).
    + intros j t' c' Hlt Hj. apply (Hbefore j (t', c') Hlt Hj).
  - left. apply first_max_none in E. auto.
Qed.

(** C8: [("MHO2BH1234", conf)] alone normalizes to [("MH02BH1234", conf)],
    for 0.8 as for any confidence: at index 2, a digit position, the letter O
    becomes the digit 0.  In general the confidence returned with a non-empty
    text is the one an input candidate came with, and the text is that
    candidate's processed text. *)
Theorem normalize_MHO2BH1234 (U : UnicodeData) :
  (forall conf, normalize U [(lit "MHO2BH1234", conf)] = Ok (lit "MH02BH1234", conf))
  /\ correct_char U 10 2 79%N = Ok 48%N
  /\ (forall candidates t conf,
        normalize U candidates = Ok (t, conf) -> t <> [] ->
        exists raw, In (raw, conf) candidates /\ _post_process_text U raw = Ok t).
Proof.
  split; [ | split ].
  - intros conf. reflexivity.
  - reflexivity.
  - intros candidates t conf. rewrite normalize_eq.
    destruct (first_max snd (survivors U candidates)) as [ [t' c'] | ] eqn:E.
    + intros [= <- <-] _. apply first_max_spec in E. destruct E as (i & Hi & _).
      apply nth_error_In in Hi. now apply survivors_origin.
    + intros [= <- <-] H. now destruct H.
Qed.

(** ** Step 1: cleanup *)

Lemma isalnum_ascii U c : is_ascii c = true -> isalnum U c = ascii_alnum c.
Proof.
  intros H. unfold isalnum, isalpha, isdecimal, isdigit, isnumeric, ascii_alnum.
  rewrite H. destruct (ascii_upper c), (ascii_lower c), (ascii_digit c); reflexivity.
Qed.

Lemma upper_char_ascii U c : is_ascii c = true -> upper_char U c = [ascii_to_upper c].
Proof. intros H. unfold upper_char, ascii_to_upper. now rewrite H. Qed.

Lemma cleanup_ascii U text :
  Forall (fun c => is_ascii c = true) text -> cleanup U text = spec_cleanup text.
Proof.
  unfold cleanup, spec_cleanup, upper.
  induction 1 as [ | c text Hc _ IH ]; [ reflexivity | ].
  simpl. rewrite (isalnum_ascii U c Hc). destruct (ascii_alnum c); [ | exact IH ].
  simpl. rewrite (upper_char_ascii U c Hc), IH. reflexivity.
Qed.

(** The claim C3 as stated fails beyond ASCII: in "ABCDEF" + e-acute + "1"
    the e-acute is alphanumeric for [str.isalnum], so it is kept and
    upper-cased, and the result carries it; stripping all but ASCII letters
    and digits would have given "ABC0EF1". *)
Lemma cleanup_keeps_non_ascii_letter :
  cleanup ucd_excerpt (lit "ABCDEF" ++ [0xE9; 49]%N) = lit "ABCDEF" ++ [0xC9; 49]%N
  /\ spec_cleanup (lit "ABCDEF" ++ [0xE9; 49]%N) = lit "ABCDEF1"
  /\ _post_process_text ucd_excerpt (lit "ABCDEF" ++ [0xE9; 49]%N)
     = Ok (lit "ABC0EF" ++ [0xC9; 49]%N)
  /\ _post_process_text ucd_excerpt (lit "ABCDEF" ++ [0xE9; 49]%N)
     <> Ok (validate ucd_excerpt
              (correct ucd_excerpt (spec_cleanup (lit "ABCDEF" ++ [0xE9; 49]%N)))).
Proof.
  repeat split; try reflexivity.
  vm_compute. discriminate.
Qed.

(** C3 (amended): the cleanup keeps the characters [str.isalnum] accepts and
    upper-cases them with [str.upper]; on ASCII text that is: strip all but
    ASCII letters and digits, upper-case the rest.  A cleaned string shorter
    than 4 characters is rejected with the empty result, and a longer one is
    all the later steps see of the raw text. *)
Theorem cleanup_step (U : UnicodeData) (text : str) :
  cleanup U text = flat_map (upper_char U) (filter (isalnum U) text)
  /\ (Forall (fun c => is_ascii c = true) text -> cleanup U text = spec_cleanup text)
  /\ (len (cleanup U text) < 4 -> _post_process_text U text = Ok [])
  /\ (4 <= len (cleanup U text) ->
      _post_process_text U text = Ok (validate U (correct U (cleanup U text)))).
Proof.
  split; [ reflexivity | split; [ apply cleanup_ascii | split ] ];
    intros H; rewrite post_process_text_eq.
  - apply Nat.ltb_lt in H. now rewrite H.
  - apply Nat.ltb_ge in H. now rewrite H.
Qed.

(** ** Step 2: correction by zone *)

Lemma get_cases d c :
  get d c c = c \/ lookup d c = Some (get d c c).
Proof. unfold get. destruct (lookup d c); auto. Qed.

Lemma corrected_cases U n i c :
  corrected U n i c = c
  \/ (letter_zone i = true /\ isdigit U c = true
      /\ lookup digit_to_letter c = Some (corrected U n i c))
  \/ (digit_zone i = true /\ isalpha U c = true
      /\ lookup corrections c = Some (corrected U n i c)).
Proof.
  unfold corrected, letter_zone, digit_zone.
  destruct (i <? 2) eqn:E2.
  { destruct (isdigit U c); [ | now left ].
    destruct (get_cases digit_to_letter c) as [ -> | H ]; auto. }
  destruct (i <? 4) eqn:E4.
  { apply Nat.ltb_ge in E2. apply Nat.leb_le in E2. rewrite E2.
    destruct (isalpha U c); [ | now left ]. destruct (contains corrections c); [ | now left ].
    destruct (get_cases corrections c) as [ -> | H ]; auto. }
  destruct (i <? 6) eqn:E6.
  { apply Nat.ltb_ge in E4. apply Nat.leb_le in E4. rewrite E4.
    destruct (isdigit U c); [ | now left ]. destruct (8 <? n); [ | now left ].
    destruct (get_cases digit_to_letter c) as [ -> | H ]; auto. }
  apply Nat.ltb_ge in E6. apply Nat.leb_le in E6. rewrite E6.
  destruct (isalpha U c); [ | now left ]. destruct (contains corrections c); [ | now left ].
  destruct (get_cases corrections c) as [ -> | H ]; rewrite ?orb_true_r; auto.
Qed.

Lemma zones_complementary i : letter_zone i = negb (digit_zone i).
Proof.
  unfold letter_zone, digit_zone.
  destruct (i <? 2) eqn:E2, (2 <=? i) eqn:E2', (4 <=? i) eqn:E4, (i <? 4) eqn:E4',
           (i <? 6) eqn:E6, (6 <=? i) eqn:E6'; try reflexivity;
    repeat match goal with
           | H : (_ <? _) = true |- _ => apply Nat.ltb_lt in H
           | H : (_ <? _) = false |- _ => apply Nat.ltb_ge in H
           | H : (_ <=? _) = true |- _ => apply Nat.leb_le in H
           | H : (_ <=? _) = false |- _ => apply Nat.leb_gt in H
           end; lia.
Qed.

(** C4: the correction loop returns a string of the same length in which a
    character differs from the cleaned one only by a substitution of the
    table of its zone: a digit replaced through [digit_to_letter] at an
    index of a letter zone (0-1, 4-5), or a letter replaced through
    [corrections] at an index of a digit zone (2-3, 6 onward).  Every index
    lies in exactly one zone. *)
Theorem correction_zone_restricted (U : UnicodeData) (text : str) :
  exists s,
    correct_loop U (len text) 0 text [] = Ok s
    /\ len s = len text
    /\ (forall i, letter_zone i = negb (digit_zone i))
    /\ forall i c c',
         nth_error text i = Some c -> nth_error s i = Some c' -> c' <> c ->
         (letter_zone i = true /\ isdigit U c = true
          /\ lookup digit_to_letter c = Some c')
         \/ (digit_zone i = true /\ isalpha U c = true
             /\ lookup corrections c = Some c').
Proof.
  exists (correct U text). split; [ apply correct_loop_correct | ].
  split; [ apply correct_length | split; [ apply zones_complementary | ] ].
  intros i c c' Hc Hc' Hne. rewrite correct_nth, Hc in Hc'. injection Hc' as <-.
  destruct (corrected_cases U (len text) i c) as [ E | H ]; [ contradiction | exact H ].
Qed.

(** C10: at the indices 4 and 5 a digit goes through [digit_to_letter] only
    when the cleaned text is longer than 8 characters; in a text of 8
    characters or fewer the loop leaves whatever stands there unchanged. *)
Theorem series_zone_needs_length (U : UnicodeData) (text : str) :
  exists s,
    correct_loop U (len text) 0 text [] = Ok s
    /\ (len text <= 8 ->
        forall i, 4 <= i < 6 -> nth_error s i = nth_error text i)
    /\ (8 < len text ->
        forall i c, 4 <= i < 6 -> nth_error text i = Some c ->
          nth_error s i
          = Some (if isdigit U c then get digit_to_letter c c else c)).
Proof.
  exists (correct U text). split; [ apply correct_loop_correct | ].
  assert (Z : forall i, 4 <= i < 6 ->
                (i <? 2) = false /\ (i <? 4) = false /\ (i <? 6) = true).
  { intros i Hi. repeat split; [ apply Nat.ltb_ge | apply Nat.ltb_ge | apply Nat.ltb_lt ]; lia. }
  split.
  - intros Hn i Hi. rewrite correct_nth.
    destruct (nth_error text i) as [ c | ]; [ simpl | reflexivity ].
    unfold corrected. destruct (Z i Hi) as (-> & -> & ->).
    apply Nat.ltb_ge in Hn. rewrite Hn, andb_false_r. reflexivity.
  - intros Hn i c Hi Hc. rewrite correct_nth, Hc. simpl.
    unfold corrected. destruct (Z i Hi) as (-> & -> & ->).
    apply Nat.ltb_lt in Hn. rewrite Hn, andb_true_r. reflexivity.
Qed.

(** ** The plate alphabet *)

Ltac unfold_ascii :=
  unfold plate_char, ascii_alnum, ascii_to_upper, is_ascii, ascii_upper,
    ascii_lower, ascii_digit in *.

Ltac n_bool :=
  repeat match goal with
         | H : (_ && _) = true |- _ => apply andb_true_iff in H; destruct H
         | H : (_ || _) = true |- _ => apply orb_true_iff in H; destruct H
         | H : (_ <=? _)%N = true |- _ => apply N.leb_le in H
         | H : (_ <? _)%N = true |- _ => apply N.ltb_lt in H
         | H : (_ <=? _)%N = false |- _ => apply N.leb_gt in H
         | H : (_ <? _)%N = false |- _ => apply N.ltb_ge in H
         end.

Lemma plate_char_ascii c : plate_char c = true -> is_ascii c = true.
Proof. unfold_ascii. intros H. n_bool; apply N.ltb_lt; lia. Qed.

Lemma plate_char_not_lower c : plate_char c = true -> ascii_lower c = false.
Proof.
  unfold_ascii. intros H. apply andb_false_iff.
  n_bool; left; apply N.leb_gt; lia.
Qed.

Lemma plate_char_clean U c : plate_char c = true -> clean_char U c.
Proof.
  intros H. pose proof (plate_char_ascii c H) as Ha. split.
  - rewrite isalnum_ascii by exact Ha. unfold ascii_alnum, plate_char in *.
    destruct (ascii_upper c), (ascii_lower c), (ascii_digit c); auto.
  - rewrite upper_char_ascii by exact Ha. unfold ascii_to_upper.
    now rewrite plate_char_not_lower.
Qed.

Lemma plate_char_not_newline c : plate_char c = true -> c <> newline.
Proof. intros H ->. discriminate. Qed.

Lemma spec_cleanup_plate text : Forall (fun c => plate_char c = true) (spec_cleanup text).
Proof.
  unfold spec_cleanup. induction text as [ | c text IH ]; [ constructor | ].
  simpl. destruct (ascii_alnum c) eqn:E; [ | exact IH ].
  simpl. constructor; [ | exact IH ].
  unfold_ascii. destruct ((97 <=? c)%N && (c <=? 122)%N) eqn:L.
  - n_bool; apply orb_true_iff; left; apply andb_true_iff; split; apply N.leb_le; lia.
  - rewrite orb_false_r in E. exact E.
Qed.

Lemma digit_to_letter_value U c v :
  lookup digit_to_letter c = Some v -> isdigit U v = false /\ plate_char v = true.
Proof.
  unfold digit_to_letter. cbn [lookup].
  repeat (destruct (N.eqb c _); [ intros [= <-]; split; reflexivity | ]).
  discriminate.
Qed.

Lemma corrections_value U c v :
  lookup corrections c = Some v -> isalpha U v = false /\ plate_char v = true.
Proof.
  unfold corrections. cbn [lookup].
  repeat (destruct (N.eqb c _); [ intros [= <-]; split; reflexivity | ]).
  discriminate.
Qed.

Lemma corrected_plate U n i c : plate_char c = true -> plate_char (corrected U n i c) = true.
Proof.
  intros H. destruct (corrected_cases U n i c) as [ -> | [ (_ & _ & L) | (_ & _ & L) ] ].
  - exact H.
  - now apply (digit_to_letter_value U) in L.
  - now apply (corrections_value U) in L.
Qed.

Lemma corrected_clean U n i c : clean_char U c -> clean_char U (corrected U n i c).
Proof.
  intros H. destruct (corrected_cases U n i c) as [ -> | [ (_ & _ & L) | (_ & _ & L) ] ].
  - exact H.
  - apply plate_char_clean. now apply (digit_to_letter_value U) in L.
  - apply plate_char_clean. now apply (corrections_value U) in L.
Qed.

Lemma imap_from_Forall {A B} (P : A -> Prop) (Q : B -> Prop) (f : nat -> A -> B) l :
  (forall i x, P x -> Q (f i x)) ->
  Forall P l -> forall i, Forall Q (imap_from f i l).
Proof.
  intros Hf. induction 1 as [ | x l Hx _ IH ]; intros i; simpl; constructor; auto.
Qed.

Lemma correct_plate U text :
  Forall (fun c => plate_char c = true) text ->
  Forall (fun c => plate_char c = true) (correct U text).
Proof.
  intros H. unfold correct. apply imap_from_Forall with (P := fun c => plate_char c = true).
  - intros i x. apply corrected_plate.
  - exact H.
Qed.

Lemma correct_clean U text :
  Forall (clean_char U) text -> Forall (clean_char U) (correct U text).
Proof.
  intros H. unfold correct. apply imap_from_Forall with (P := clean_char U).
  - intros i x. apply corrected_clean.
  - exact H.
Qed.

Lemma Forall_no_newline s : Forall (fun c => plate_char c = true) s -> ~ In newline s.
Proof.
  intros H Hin. rewrite Forall_forall in H. now apply (plate_char_not_newline _ (H _ Hin)).
Qed.

(** ** Steps 3 and 4: validation *)

Lemma re_match_plate_no_newline U s :
  ~ In newline s -> (re_match (plate_pattern U) s = true <-> plate_grammar U s).
Proof.
  intros Hn. rewrite re_match_plate. split; [ | auto ].
  intros [ G | (w & -> & _) ]; [ exact G | ].
  exfalso. apply Hn, in_or_app. right. now left.
Qed.

(** C5: a corrected string that [plate_pattern] matches is returned as it
    is.  The pattern is the plate grammar (2 letters, 1-2 digits, 1-2
    letters, 1-4 digits, an optional letter) over the whole string: on a
    string without a newline, and so on every corrected string of an ASCII
    text, the match succeeds exactly when the string is in the grammar. *)
Theorem grammar_match_accepted (U : UnicodeData) :
  (forall text,
      4 <= len (cleanup U text) ->
      re_match (plate_pattern U) (correct U (cleanup U text)) = true ->
      _post_process_text U text = Ok (correct U (cleanup U text)))
  /\ (forall s, ~ In newline s ->
                (re_match (plate_pattern U) s = true <-> plate_grammar U s))
  /\ (forall text, Forall (fun c => is_ascii c = true) text ->
                   (re_match (plate_pattern U) (correct U (cleanup U text)) = true
                    <-> plate_grammar U (correct U (cleanup U text)))).
Proof.
  split; [ | split ].
  - intros text Hlen Hm. rewrite post_process_text_eq.
    apply Nat.ltb_ge in Hlen. rewrite Hlen. unfold validate. now rewrite Hm.
  - apply re_match_plate_no_newline.
  - intros text Ha. apply re_match_plate_no_newline, Forall_no_newline, correct_plate.
    rewrite cleanup_ascii by exact Ha. apply spec_cleanup_plate.
Qed.

Lemma fallback_iff U s :
  fallback U s = true
  <-> 6 <= len s
      /\ (exists c, In c s /\ isalpha U c = true)
      /\ (exists c, In c s /\ isdigit U c = true).
Proof.
  unfold fallback. rewrite !andb_true_iff, !existsb_exists, Nat.leb_le. tauto.
Qed.

Lemma survivors_rejected U pre text conf post :
  _post_process_text U text = Ok [] ->
  survivors U (pre ++ (text, conf) :: post) = survivors U (pre ++ post).
Proof.
  intros H. rewrite !survivors_app, survivors_cons, H. reflexivity.
Qed.

(** C6: a corrected string [s] that the pattern does not match is returned
    exactly when it has at least 6 characters, a letter and a digit;
    otherwise the result is the empty string, and the candidate counts for
    nothing in [normalize]. *)
Theorem fallback_acceptance (U : UnicodeData) (text s : str) :
  4 <= len (cleanup U text) ->
  s = correct U (cleanup U text) ->
  re_match (plate_pattern U) s = false ->
  (_post_process_text U text = Ok s
   <-> 6 <= len s
       /\ (exists c, In c s /\ isalpha U c = true)
       /\ (exists c, In c s /\ isdigit U c = true))
  /\ (_post_process_text U text <> Ok s ->
      _post_process_text U text = Ok []
      /\ forall conf pre post,
           normalize U (pre ++ (text, conf) :: post) = normalize U (pre ++ post)).
Proof.
  intros Hlen -> Hm. rewrite <- fallback_iff, post_process_text_eq.
  assert (Hs : correct U (cleanup U text) <> []).
  { intros E. apply (f_equal len) in E. rewrite correct_length in E. simpl in E. lia. }
  apply Nat.ltb_ge in Hlen. rewrite Hlen. unfold validate. rewrite Hm.
  destruct (fallback U (correct U (cleanup U text))) eqn:F.
  - split; [ tauto | ]. intros H. now destruct H.
  - split.
    + split; [ intros [= E]; now destruct Hs | discriminate ].
    + intros _. split; [ reflexivity | ].
      intros conf pre post. rewrite !normalize_eq, survivors_rejected; [ reflexivity | ].
      rewrite post_process_text_eq, Hlen. unfold validate. now rewrite Hm, F.
Qed.

Lemma fallback_acceptance_witness :
  (_post_process_text ucd_excerpt (lit "xy-1234") = Ok (lit "XY1234")
   <-> 6 <= len (lit "XY1234")
       /\ (exists c, In c (lit "XY1234") /\ isalpha ucd_excerpt c = true)
       /\ (exists c, In c (lit "XY1234") /\ isdigit ucd_excerpt c = true))
  /\ (_post_process_text ucd_excerpt (lit "xy-1234") <> Ok (lit "XY1234") ->
      _post_process_text ucd_excerpt (lit "xy-1234") = Ok []
      /\ forall conf pre post,
           normalize ucd_excerpt (pre ++ (lit "xy-1234", conf) :: post)
           = normalize ucd_excerpt (pre ++ post)).
Proof.
  apply (fallback_acceptance ucd_excerpt (lit "xy-1234") (lit "XY1234")).
  - vm_compute. lia.
  - reflexivity.
  - reflexivity.
Defined.

(** ** Idempotence *)

Lemma cleanup_clean U s : Forall (clean_char U) s -> cleanup U s = s.
Proof.
  unfold cleanup, upper. induction 1 as [ | c s [Hc Hu] _ IH ]; [ reflexivity | ].
  simpl. rewrite Hc. simpl. rewrite Hu, IH. reflexivity.
Qed.

Lemma digit_to_letter_idem U (b : bool) c :
  let v := if isdigit U c && b then get digit_to_letter c c else c in
  (if isdigit U v && b then get digit_to_letter v v else v) = v.
Proof.
  cbv zeta. destruct (isdigit U c && b) eqn:E; [ | now rewrite E ].
  destruct (get_cases digit_to_letter c) as [ e | L ]; [ now rewrite e, E | ].
  apply (digit_to_letter_value U) in L. destruct L as [-> _]. reflexivity.
Qed.

Lemma corrections_idem U c :
  let v := if isalpha U c && contains corrections c then get corrections c c else c in
  (if isalpha U v && contains corrections v then get corrections v v else v) = v.
Proof.
  cbv zeta. destruct (isalpha U c && contains corrections c) eqn:E; [ | now rewrite E ].
  destruct (get_cases corrections c) as [ e | L ]; [ now rewrite e, E | ].
  apply (corrections_value U) in L. destruct L as [-> _]. reflexivity.
Qed.

Lemma corrected_idem U n i c :
  corrected U n i (corrected U n i c) = corrected U n i c.
Proof.
  unfold corrected. destruct (i <? 2).
  { generalize (digit_to_letter_idem U true c). cbv zeta.
    now rewrite !andb_true_r. }
  destruct (i <? 4); [ apply corrections_idem | ].
  destruct (i <? 6); [ apply digit_to_letter_idem | apply corrections_idem ].
Qed.

Lemma imap_from_idem {A} (f : nat -> A -> A) l :
  (forall i x, f i (f i x) = f i x) ->
  forall i, imap_from f i (imap_from f i l) = imap_from f i l.
Proof.
  intros Hf. induction l as [ | x l IH ]; intros i; simpl; [ reflexivity | ].
  now rewrite Hf, IH.
Qed.

Lemma correct_idem U t : correct U (correct U t) = correct U t.
Proof.
  unfold correct at 1 3. fold (len (correct U t)). rewrite correct_length.
  unfold correct. apply imap_from_idem. intros i x. apply corrected_idem.
Qed.

Lemma normalize_single U text conf :
  normalize U [(text, conf)]
  = Ok (match _post_process_text U text with
        | Ok (c :: t) => (c :: t, conf)
        | _ => ([], 0%Q)
        end).
Proof.
  rewrite normalize_eq, survivors_cons.
  destruct (_post_process_text U text) as [ [ | c t ] | e ]; reflexivity.
Qed.

Lemma post_process_text_fixed U text s :
  Forall (clean_char U) (cleanup U text) ->
  _post_process_text U text = Ok s -> _post_process_text U s = Ok s.
Proof.
  intros Hc. rewrite post_process_text_eq.
  destruct (len (cleanup U text) <? 4) eqn:E; [ now intros [= <-] | ].
  unfold validate.
  assert (Hfix : _post_process_text U (correct U (cleanup U text))
                 = Ok (validate U (correct U (cleanup U text)))).
  { rewrite post_process_text_eq, cleanup_clean by now apply correct_clean.
    rewrite correct_length, E, correct_idem. reflexivity. }
  unfold validate in Hfix.
  destruct (re_match _ _); [ intros [= <-]; exact Hfix | ].
  destruct (fallback _ _); [ intros [= <-]; exact Hfix | ].
  now intros [= <-].
Qed.

Lemma ascii_cleanup_clean U text :
  Forall (fun c => is_ascii c = true) text -> Forall (clean_char U) (cleanup U text).
Proof.
  intros H. rewrite cleanup_ascii by exact H.
  eapply Forall_impl; [ | apply spec_cleanup_plate ].
  intros c. apply plate_char_clean.
Qed.

(** The claim C9 as stated fails where upper-casing produces a character
    that is not alphanumeric.  The text j-caron + "ABC12" upper-cases to
    "J" + combining caron + "ABC12", which step 2 turns into J, caron,
    "A8C12" (the B stands at index 3) and step 4 accepts; fed back, cleanup
    drops the caron and the result is "JA8C12". *)
Lemma renormalize_differs :
  normalize ucd_excerpt [(0x1F0%N :: lit "ABC12", (1 # 2)%Q)]
  = Ok ([0x4A; 0x30C]%N ++ lit "A8C12", (1 # 2)%Q)
  /\ renormalize ucd_excerpt (0x1F0%N :: lit "ABC12", (1 # 2)%Q)
     = Ok (lit "JA8C12", (1 # 2)%Q)
  /\ renormalize ucd_excerpt (0x1F0%N :: lit "ABC12", (1 # 2)%Q)
     <> normalize ucd_excerpt [(0x1F0%N :: lit "ABC12", (1 # 2)%Q)].
Proof.
  repeat split; try reflexivity.
  vm_compute. discriminate.
Qed.

(** C9 (amended): when the cleaned text consists of characters that are
    alphanumeric and their own upper case (as it does for every ASCII
    text), the processed text is a fixed point of [_post_process_text], and
    normalizing the result of [normalize] on the one candidate gives that
    result again. *)
Theorem normalize_idempotent (U : UnicodeData) (text : str) (conf : float) :
  Forall (clean_char U) (cleanup U text) ->
  (forall s, _post_process_text U text = Ok s -> _post_process_text U s = Ok s)
  /\ renormalize U (text, conf) = normalize U [(text, conf)].
Proof.
  intros Hc. split.
  - intros s. now apply post_process_text_fixed.
  - unfold renormalize. rewrite normalize_single.
    destruct (_post_process_text U text) as [ [ | c t ] | e ] eqn:E; cbn [bind].
    + reflexivity.
    + rewrite normalize_single, (post_process_text_fixed U text (c :: t) Hc E). reflexivity.
    + reflexivity.
Qed.

Lemma normalize_idempotent_witness :
  (forall s, _post_process_text ucd_excerpt (lit "mho2 bh-1234") = Ok s ->
             _post_process_text ucd_excerpt s = Ok s)
  /\ renormalize ucd_excerpt (lit "mho2 bh-1234", (4 # 5)%Q)
     = normalize ucd_excerpt [(lit "mho2 bh-1234", (4 # 5)%Q)].
Proof.
  apply (normalize_idempotent ucd_excerpt (lit "mho2 bh-1234") (4 # 5)%Q).
  apply ascii_cleanup_clean. repeat constructor.
Defined.

(** ** The examples of the specification *)

Example normalize_lower_case U conf :
  normalize U [(lit "mh02bh1234", conf)] = Ok (lit "MH02BH1234", conf).
Proof. reflexivity. Qed.

Example normalize_short_candidate U :
  normalize U [(lit "AB", (99 # 100)%Q); (lit "KA05MN1234", (1 # 2)%Q)]
  = Ok (lit "KA05MN1234", (1 # 2)%Q).
Proof. reflexivity. Qed.

Example normalize_same_text U :
  normalize U [(lit "XY1234", (7 # 10)%Q); (lit "XY1234", (6 # 10)%Q)]
  = Ok (lit "XY1234", (7 # 10)%Q).
Proof. reflexivity. Qed.

Example normalize_tie_first U :
  normalize U [(lit "XY1234", (3 # 5)%Q); (lit "XY1239", (7 # 10)%Q);
               (lit "XY1235", (14 # 20)%Q)]
  = Ok (lit "XY1239", (7 # 10)%Q).
Proof. reflexivity. Qed.

Example series_zone_long U :
  _post_process_text U (lit "MH0281234") = Ok (lit "MH02BI234")
  /\ _post_process_text U (lit "MH028123") = Ok (lit "MH028123").
Proof. split; reflexivity. Qed.

(** ** The validity test of ModelHandler

    [ModelHandler._is_valid_plate] is the fallback test with 5 for 6: it is
    not the one [_post_process_text] applies. *)
Lemma is_valid_plate_threshold U :
  ModelHandler._is_valid_plate U (lit "AB123") = true
  /\ fallback U (lit "AB123") = false.
Proof. split; reflexivity. Qed.

(** * Further properties of ANPRModel *)

Lemma plate_grammar_length U w : plate_grammar U w -> 5 <= len w <= 11.
Proof.
  intros (a & b & c & d & e & -> & [Ha _] & [Hb _] & [Hc _] & [Hd _] & [He _]).
  unfold len in *. rewrite !length_app. lia.
Qed.

Lemma re_match_plate_length U s :
  re_match (ANPRModel.plate_pattern U) s = true -> 5 <= len s.
Proof.
  intros H. apply re_match_plate in H. destruct H as [ G | (w & -> & G) ];
    apply plate_grammar_length in G; unfold len in *; [ | rewrite length_app ]; lia.
Qed.

(** X1: a text that [_post_process_text] returns is empty or has at least
    5 characters, as many as the cleaned text: a cleaned text of exactly 4
    characters passes the length test and is then always rejected. *)
Theorem post_process_text_never_short (U : UnicodeData) (text s : str) :
  _post_process_text U text = Ok s ->
  s <> [] ->
  5 <= len s /\ len s = len (cleanup U text).
Proof.
  rewrite post_process_text_eq.
  destruct (len (cleanup U text) <? 4); [ intros [= <-] H; now destruct H | ].
  unfold validate. destruct (re_match _ _) eqn:M.
  - intros [= <-] _. split; [ now apply re_match_plate_length in M | apply correct_length ].
  - destruct (fallback U _) eqn:F; [ | intros [= <-] H; now destruct H ].
    intros [= <-] _. apply fallback_iff in F. split; [ lia | apply correct_length ].
Qed.

Lemma post_process_text_never_short_witness :
  5 <= len (lit "XY1234") /\ len (lit "XY1234") = len (cleanup ucd_excerpt (lit "xy 1234")).
Proof.
  apply (post_process_text_never_short ucd_excerpt (lit "xy 1234") (lit "XY1234")).
  - reflexivity.
  - discriminate.
Defined.

(** X2: on an ASCII text the result of [_post_process_text] consists of
    upper-case ASCII letters and ASCII digits only. *)
Theorem post_process_text_alphabet (U : UnicodeData) (text s : str) :
  Forall (fun c => is_ascii c = true) text ->
  _post_process_text U text = Ok s ->
  Forall (fun c => plate_char c = true) s.
Proof.
  intros Ha. rewrite post_process_text_eq.
  assert (P : Forall (fun c => plate_char c = true) (correct U (cleanup U text))).
  { apply correct_plate. rewrite cleanup_ascii by exact Ha. apply spec_cleanup_plate. }
  destruct (len (cleanup U text) <? 4); [ intros [= <-]; constructor | ].
  unfold validate. destruct (re_match _ _); [ now intros [= <-] | ].
  destruct (fallback U _); intros [= <-]; [ exact P | constructor ].
Qed.

Lemma post_process_text_alphabet_witness :
  Forall (fun c => plate_char c = true) (lit "MH02BH1234").
Proof.
  apply (post_process_text_alphabet ucd_excerpt (lit "mh-o2 bh.1234")).
  - repeat constructor.
  - reflexivity.
Defined.

(** X3: [recognize_plate] returns the empty text exactly when no OCR
    result survives, and then with confidence 0.0; a non-empty text is the
    processed text of a result, returned with the confidence of that
    result. *)
Theorem recognize_plate_empty_text (U : UnicodeData) (B : Type)
        (all_results : list (B * str * float)) (t : str) (conf : float) :
  ANPRModel.recognize_plate U all_results = Ok (t, conf) ->
  (t = [] <-> accepted U all_results = [])
  /\ (t = [] -> conf = 0%Q)
  /\ (t <> [] -> exists bbox raw, In (bbox, raw, conf) all_results
                                  /\ _post_process_text U raw = Ok t).
Proof.
  rewrite recognize_plate_eq.
  assert (Hacc : forall t' c', In (t', c') (accepted U all_results) ->
                   t' <> [] /\ exists bbox raw, In (bbox, raw, c') all_results
                                                /\ _post_process_text U raw = Ok t').
  { induction all_results as [ | [[bbox raw] c0] l IH ]; [ intros t' c' [] | ].
    intros t' c'. cbn [accepted flat_map fst snd]. intros H. apply in_app_or in H.
    destruct H as [ H | H ].
    - destruct (_post_process_text U raw) as [ [ | x s ] | e ] eqn:E; try contradiction.
      destruct H as [ [= <- <-] | [] ]. split; [ discriminate | ].
      exists bbox, raw. split; [ now left | exact E ].
    - destruct (IH t' c' H) as (Hne & b & r & Hin & Hr). split; [ exact Hne | ].
      exists b, r. split; [ now right | exact Hr ]. }
  destruct (first_max snd (accepted U all_results)) as [ [t' c'] | ] eqn:E.
  - intros [= <- <-]. apply first_max_spec in E. destruct E as (i & Hi & _).
    apply nth_error_In in Hi. destruct (Hacc _ _ Hi) as (Hne & Horigin).
    split; [ split; [ intros ->; now destruct Hne | ] | split ].
    + intros Hnil. rewrite Hnil in Hi. contradiction.
    + intros ->. now destruct Hne.
    + intros _. exact Horigin.
  - intros [= <- <-]. apply first_max_none in E.
    split; [ tauto | split; [ reflexivity | intros H; now destruct H ] ].
Qed.

Lemma recognize_plate_empty_text_witness :
  (lit "KA05MN1234" = [] <-> accepted ucd_excerpt [(tt, lit "AB", (99 # 100)%Q); (tt, lit "ka05mn1234", (1 # 2)%Q)] = [])
  /\ (lit "KA05MN1234" = [] -> (1 # 2)%Q = 0%Q)
  /\ (lit "KA05MN1234" <> [] ->
      exists bbox raw,
        In (bbox, raw, (1 # 2)%Q) [(tt, lit "AB", (99 # 100)%Q); (tt, lit "ka05mn1234", (1 # 2)%Q)]
        /\ _post_process_text ucd_excerpt raw = Ok (lit "KA05MN1234")).
Proof.
  apply (recognize_plate_empty_text ucd_excerpt unit
           [(tt, lit "AB", (99 # 100)%Q); (tt, lit "ka05mn1234", (1 # 2)%Q)]
           (lit "KA05MN1234") (1 # 2)%Q).
  reflexivity.
Defined.

Ltac nat_bool :=
  repeat match goal with
         | H : (_ && _) = true |- _ => apply andb_true_iff in H; destruct H
         | H : (_ || _) = true |- _ => apply orb_true_iff in H; destruct H
         | H : (_ <? _) = true |- _ => apply Nat.ltb_lt in H
         | H : (_ <? _) = false |- _ => apply Nat.ltb_ge in H
         | H : (_ <=? _) = true |- _ => apply Nat.leb_le in H
         | H : (_ <=? _) = false |- _ => apply Nat.leb_gt in H
         end.

Lemma corrections_key_alpha U c : contains corrections c = true -> isalpha U c = true.
Proof.
  unfold contains, corrections. cbn [lookup].
  repeat match goal with
         | |- context [N.eqb c ?k] =>
             destruct (N.eqb_spec c k); [ subst c; reflexivity | ]
         end.
  discriminate.
Qed.

Lemma digit_to_letter_key_digit U c : contains digit_to_letter c = true -> isdigit U c = true.
Proof.
  unfold contains, digit_to_letter. cbn [lookup].
  repeat match goal with
         | |- context [N.eqb c ?k] =>
             destruct (N.eqb_spec c k); [ subst c; reflexivity | ]
         end.
  discriminate.
Qed.

Lemma corrections_value_no_key c v :
  lookup corrections c = Some v -> contains corrections v = false.
Proof.
  unfold corrections. cbn [lookup].
  repeat (destruct (N.eqb c _); [ intros [= <-]; reflexivity | ]).
  discriminate.
Qed.

Lemma digit_to_letter_value_no_key c v :
  lookup digit_to_letter c = Some v -> contains digit_to_letter v = false.
Proof.
  unfold digit_to_letter. cbn [lookup].
  repeat (destruct (N.eqb c _); [ intros [= <-]; reflexivity | ]).
  discriminate.
Qed.

Lemma corrections_applied U c :
  contains corrections
    (if isalpha U c && contains corrections c then get corrections c c else c) = false.
Proof.
  destruct (contains corrections c) eqn:K.
  - rewrite (corrections_key_alpha U c K). simpl.
    unfold get. unfold contains in K. destruct (lookup corrections c) eqn:L; [ | discriminate ].
    now apply corrections_value_no_key in L.
  - rewrite andb_false_r. exact K.
Qed.

Lemma digit_to_letter_applied U c :
  contains digit_to_letter
    (if isdigit U c then get digit_to_letter c c else c) = false.
Proof.
  destruct (contains digit_to_letter c) eqn:K.
  - rewrite (digit_to_letter_key_digit U c K).
    unfold get. unfold contains in K. destruct (lookup digit_to_letter c) eqn:L; [ | discriminate ].
    now apply digit_to_letter_value_no_key in L.
  - destruct (isdigit U c); [ | exact K ].
    unfold get. unfold contains in K.
    destruct (lookup digit_to_letter c) eqn:L; [ discriminate | ].
    unfold contains. now rewrite L.
Qed.

(** X4: the correction loop leaves no correctable character in place.  In
    its result no character at an index of a digit zone (2-3, 6 onward) is
    a key of [corrections] (O I Z S B D Q T), and neither of the first two
    characters is a key of [digit_to_letter] (0 1 2 4 5 6 7 8); the same
    holds at the indices 4 and 5 when the text is longer than 8. *)
Theorem correction_leaves_no_key (U : UnicodeData) (text : str) :
  exists s,
    correct_loop U (len text) 0 text [] = Ok s
    /\ forall i v, nth_error s i = Some v ->
         (digit_zone i = true -> contains corrections v = false)
         /\ (i < 2 -> contains digit_to_letter v = false)
         /\ (4 <= i < 6 -> 8 < len text -> contains digit_to_letter v = false).
Proof.
  exists (correct U text). split; [ apply correct_loop_correct | ].
  intros i v. rewrite correct_nth.
  destruct (nth_error text i) as [ c | ]; [ | discriminate ].
  intros [= <-]. unfold corrected. split; [ | split ].
  - intros Hz.
    assert (Hz' : 2 <= i < 4 \/ 6 <= i) by (unfold digit_zone in Hz; nat_bool; lia).
    clear Hz.
    destruct (i <? 2) eqn:E2; [ exfalso; nat_bool; lia | ].
    destruct (i <? 4) eqn:E4; [ apply corrections_applied | ].
    destruct (i <? 6) eqn:E6; [ exfalso; nat_bool; lia | apply corrections_applied ].
  - intros Hi. apply Nat.ltb_lt in Hi. rewrite Hi. apply digit_to_letter_applied.
  - intros Hi Hn.
    assert (E2 : (i <? 2) = false) by (apply Nat.ltb_ge; lia).
    assert (E4 : (i <? 4) = false) by (apply Nat.ltb_ge; lia).
    assert (E6 : (i <? 6) = true) by (apply Nat.ltb_lt; lia).
    apply Nat.ltb_lt in Hn. rewrite E2, E4, E6, Hn, andb_true_r.
    apply digit_to_letter_applied.
Qed.

(** * ANPRBackend *)

Import ReSearch.

(** ** The first match of a search *)

Lemma exec_sound {A} r : forall pos s (k : nat -> str -> option A) a,
  exec r pos s k = Some a ->
  exists w rest, s = w ++ rest /\ lang r pos w rest /\ k (pos + len w) rest = Some a.
Proof.
  induction r as [ | p | r1 IH1 r2 IH2 | r1 IH1 r2 IH2 | | ]; intros pos s k a; simpl.
  - intros H. exists [], s. simpl. now rewrite Nat.add_0_r.
  - destruct s as [ | c s ]; [ discriminate | ].
    destruct (p c) eqn:Hp; [ | discriminate ].
    intros H. exists [c], s. simpl. rewrite Nat.add_1_r. eauto.
  - intros H. apply IH1 in H. destruct H as (w1 & rest1 & -> & L1 & H).
    apply IH2 in H. destruct H as (w2 & rest & -> & L2 & Hk).
    exists (w1 ++ w2), rest. rewrite app_assoc. split; [ reflexivity | split ].
    + exists w1, w2. auto.
    + unfold len in *. now rewrite length_app, Nat.add_assoc.
  - destruct (exec r1 pos s k) as [ a' | ] eqn:E.
    + intros [= <-]. apply IH1 in E. destruct E as (w & rest & -> & L & Hk).
      exists w, rest. auto.
    + intros H. apply IH2 in H. destruct H as (w & rest & -> & L & Hk).
      exists w, rest. auto.
  - destruct (Nat.eqb pos 0) eqn:E; [ | discriminate ].
    apply Nat.eqb_eq in E. intros H. exists [], s. simpl. rewrite Nat.add_0_r. auto.
  - destruct (at_eol s) eqn:E; [ | discriminate ].
    intros H. exists [], s. simpl. rewrite Nat.add_0_r. auto.
Qed.

Lemma match_at_sound r pos s n :
  match_at r pos s = Some n ->
  exists rest, s = firstn n s ++ rest /\ len (firstn n s) = n /\ lang r pos (firstn n s) rest.
Proof.
  unfold match_at. intros H. apply exec_sound in H.
  destruct H as (w & rest & -> & L & [= <-]).
  replace (pos + len w - pos) with (len w) by lia. unfold len.
  rewrite firstn_app, Nat.sub_diag, firstn_all, firstn_O, app_nil_r. eauto.
Qed.

Lemma findall_from_head r s : forall pos skip m ms,
  findall_from r pos skip s = m :: ms ->
  exists pre post, s = pre ++ m ++ post /\ lang r (pos + len pre) m post.
Proof.
  induction s as [ | c s IH ]; intros pos skip m ms; [ discriminate | ].
  assert (Step : forall skip', findall_from r (S pos) skip' s = m :: ms ->
                   exists pre post, c :: s = pre ++ m ++ post /\ lang r (pos + len pre) m post).
  { intros skip' H. apply IH in H. destruct H as (pre & post & -> & L).
    exists (c :: pre), post. split; [ reflexivity | ].
    simpl. now rewrite Nat.add_succ_r. }
  cbn [findall_from]. destruct skip as [ | skip ]; [ | apply Step ].
  destruct (match_at r pos (c :: s)) as [ n | ] eqn:E; [ | apply Step ].
  intros [= <- <-]. apply match_at_sound in E. destruct E as (rest & E & _ & L).
  exists [], rest. simpl. rewrite Nat.add_0_r. auto.
Qed.

Lemma exec_times {A} p m : forall w rest pos (k : nat -> str -> option A),
  forallb p w = true -> len w = m ->
  exec (times (Cls p) m) pos (w ++ rest) k = k (pos + m) rest.
Proof.
  induction m as [ | m IH ]; intros w rest pos k Hp Hl.
  - destruct w; [ | discriminate ]. simpl. now rewrite Nat.add_0_r.
  - destruct w as [ | c w ]; [ discriminate | ].
    simpl in Hp. apply andb_true_iff in Hp. destruct Hp as [Hc Hp].
    injection Hl as Hl. simpl. rewrite Hc, (IH w rest (S pos) k Hp Hl).
    now rewrite Nat.add_succ_r.
Qed.

Lemma exec_upto {A} p n : forall w rest pos (k : nat -> str -> option A) a,
  forallb p w = true -> len w <= n ->
  len w = n \/ stops p rest ->
  k (pos + len w) rest = Some a ->
  exec (upto (Cls p) n) pos (w ++ rest) k = Some a.
Proof.
  induction n as [ | n IH ]; intros w rest pos k a Hp Hl Hs Hk.
  - destruct w; [ | simpl in Hl; lia ]. simpl in *. now rewrite Nat.add_0_r in Hk.
  - destruct w as [ | c w ].
    + destruct Hs as [ Hs | Hs ]; [ discriminate | ].
      simpl in Hk. rewrite Nat.add_0_r in Hk. cbn [upto exec app].
      destruct rest as [ | c rest ]; [ exact Hk | ].
      simpl in Hs. now rewrite Hs.
    + simpl in Hp. apply andb_true_iff in Hp. destruct Hp as [Hc Hp].
      cbn [upto exec app]. rewrite Hc.
      rewrite (IH w rest (S pos) k a Hp); [ reflexivity | simpl in Hl; lia | | ].
      * destruct Hs as [ Hs | Hs ]; [ left; simpl in Hs; lia | now right ].
      * simpl in Hk. now rewrite Nat.add_succ_r in Hk.
Qed.

Lemma exec_rep {A} p m n w rest pos (k : nat -> str -> option A) a :
  run_of p m n w -> stops p rest ->
  k (pos + len w) rest = Some a ->
  exec (rep (Cls p) m n) pos (w ++ rest) k = Some a.
Proof.
  intros [Hl Hp] Hs Hk. unfold rep. cbn [exec].
  rewrite <- (firstn_skipn m w) in Hp |- *. rewrite forallb_app in Hp.
  apply andb_true_iff in Hp. destruct Hp as [Hp1 Hp2].
  assert (L1 : len (firstn m w) = m) by (unfold len in *; rewrite length_firstn; lia).
  assert (L2 : len (skipn m w) = len w - m) by (unfold len; apply length_skipn).
  rewrite <- app_assoc, (exec_times p m (firstn m w) _ pos _ Hp1 L1).
  apply exec_upto; [ exact Hp2 | lia | now right | ].
  rewrite L2. replace (pos + m + (len w - m)) with (pos + len w) by lia. exact Hk.
Qed.

Lemma upper_not_decimal U c : ascii_upper c = true -> isdecimal U c = false.
Proof.
  intros H. unfold isdecimal. unfold_ascii. n_bool.
  replace (c <? 128)%N with true by (symmetry; apply N.ltb_lt; lia).
  apply andb_false_iff. right. apply N.leb_gt. lia.
Qed.

Lemma decimal_not_upper U c : isdecimal U c = true -> ascii_upper c = false.
Proof.
  intros H. destruct (ascii_upper c) eqn:E; [ | reflexivity ].
  rewrite (upper_not_decimal U c E) in H. discriminate.
Qed.

Lemma run_of_head p m n w :
  run_of p (S m) n w -> exists c w', w = c :: w' /\ p c = true.
Proof.
  intros [Hl Hp]. destruct w as [ | c w ]; [ simpl in Hl; lia | ].
  simpl in Hp. apply andb_true_iff in Hp. destruct Hp as [Hc _]. eauto.
Qed.

(** On a string of the grammar the pattern matches all of it, at the first
    attempt. *)
Lemma match_at_backend_grammar U m :
  backend_grammar U m -> match_at (ANPRBackend.plate_pattern U) 0 m = Some (len m).
Proof.
  intros (a & b & c & d & -> & [Ha Hpa] & Hb & Hc & Hd).
  unfold match_at, ANPRBackend.plate_pattern. cbn [exec].
  rewrite (exec_times ascii_upper 2 a _ 0 _ Hpa) by lia.
  destruct (run_of_head _ _ _ _ Hc) as (c0 & c' & -> & Hc0).
  destruct (run_of_head _ _ _ _ Hd) as (d0 & d' & -> & Hd0).
  apply exec_rep; [ exact Hb | simpl; now apply upper_not_decimal | ].
  apply exec_rep; [ exact Hc | simpl; now apply (decimal_not_upper U) | ].
  rewrite <- (app_nil_r (d0 :: d')) at 1.
  apply exec_rep; [ exact Hd | exact I | ].
  f_equal. unfold len in *. rewrite !length_app. simpl in *. lia.
Qed.

Lemma backend_pattern_lang U pos w rest :
  lang (ANPRBackend.plate_pattern U) pos w rest -> backend_grammar U w.
Proof.
  unfold ANPRBackend.plate_pattern, backend_grammar. cbn [lang].
  intros (w1 & v1 & -> & L1 & w2 & v2 & -> & L2 & w3 & v3 & -> & L3 & L4).
  apply lang_times in L1. apply lang_rep in L2; [ | lia ].
  apply lang_rep in L3; [ | lia ]. apply lang_rep in L4; [ | lia ].
  exists w1, w2, w3, v3. auto.
Qed.

Lemma backend_grammar_length U w : backend_grammar U w -> 5 <= len w <= 10.
Proof.
  intros (a & b & c & d & -> & [Ha _] & [Hb _] & [Hc _] & [Hd _]).
  unfold len in *. rewrite !length_app. lia.
Qed.

Lemma findall_backend_grammar U m :
  backend_grammar U m -> exists ms, findall (ANPRBackend.plate_pattern U) m = m :: ms.
Proof.
  intros G. pose proof (backend_grammar_length U m G) as Hl.
  pose proof (match_at_backend_grammar U m G) as M.
  unfold findall. destruct m as [ | c m ]; [ simpl in Hl; lia | ].
  cbn [findall_from]. rewrite M. unfold len. rewrite firstn_all. eauto.
Qed.

(** ** [_post_process_plate_text] as a function of the text *)

Lemma post_process_plate_text_eq U text :
  ANPRBackend._post_process_plate_text U text
  = Ok (if 6 <=? len (stripped U text)
        then match findall (ANPRBackend.plate_pattern U) (replaced (stripped U text)) with
             | m :: _ => m
             | [] => replaced (stripped U text)
             end
        else stripped U text).
Proof.
  unfold ANPRBackend._post_process_plate_text. fold (stripped U text).
  destruct (6 <=? len (stripped U text)); [ | reflexivity ].
  fold (replaced (stripped U text)).
  destruct (findall _ _); reflexivity.
Qed.

Lemma exec_complete {A} r : forall pos w rest (k : nat -> str -> option A),
  lang r pos w rest -> k (pos + len w) rest <> None ->
  exec r pos (w ++ rest) k <> None.
Proof.
  induction r as [ | p | r1 IH1 r2 IH2 | r1 IH1 r2 IH2 | | ];
    intros pos w rest k; simpl.
  - intros ->. simpl. now rewrite Nat.add_0_r.
  - intros (c & -> & Hp). simpl. rewrite Hp, Nat.add_1_r. auto.
  - intros (w1 & w2 & -> & L1 & L2) Hk. rewrite <- app_assoc.
    apply IH1; [ exact L1 | ]. apply IH2; [ exact L2 | ].
    unfold len in *. now rewrite length_app, Nat.add_assoc in Hk.
  - intros [ L | L ] Hk.
    + pose proof (IH1 pos w rest k L Hk) as H.
      destruct (exec r1 pos (w ++ rest) k); [ discriminate | now destruct H ].
    + destruct (exec r1 pos (w ++ rest) k); [ discriminate | ]. now apply IH2.
  - intros (-> & ->). simpl. auto.
  - intros (-> & He). simpl. rewrite He, Nat.add_0_r. auto.
Qed.

Lemma match_at_none r pos w rest :
  match_at r pos (w ++ rest) = None -> ~ lang r pos w rest.
Proof.
  unfold match_at. intros H L. revert H. apply exec_complete; [ exact L | discriminate ].
Qed.

Lemma findall_from_none r s : forall pos,
  findall_from r pos 0 s = [] ->
  forall pre m post, s = pre ++ m ++ post -> m <> [] -> ~ lang r (pos + len pre) m post.
Proof.
  induction s as [ | c s IH ]; intros pos H pre m post E Hm.
  - destruct pre; [ destruct m; [ now destruct Hm | discriminate ] | discriminate ].
  - cbn [findall_from] in H.
    destruct (match_at r pos (c :: s)) as [ n | ] eqn:M; [ discriminate | ].
    destruct pre as [ | c' pre ].
    + simpl in E. rewrite E in M. simpl. rewrite Nat.add_0_r. now apply match_at_none.
    + injection E as <- E. simpl. rewrite Nat.add_succ_r.
      apply (IH (S pos) H pre m post E Hm).
Qed.

Lemma backend_grammar_lang U pos w rest :
  backend_grammar U w -> lang (ANPRBackend.plate_pattern U) pos w rest.
Proof.
  unfold ANPRBackend.plate_pattern, backend_grammar. cbn [lang].
  intros (a & b & c & d & -> & Ha & Hb & Hc & Hd).
  exists a, (b ++ c ++ d). split; [ reflexivity | split; [ now apply lang_times | ] ].
  exists b, (c ++ d). split; [ reflexivity | split; [ apply lang_rep; [ lia | exact Hb ] | ] ].
  exists c, d. split; [ reflexivity | split; apply lang_rep; solve [ lia | assumption ] ].
Qed.

(** ** The alphabet of the result *)

Lemma stripped_plate U text : Forall (fun c => plate_char c = true) (stripped U text).
Proof.
  unfold stripped. apply Forall_forall. intros c Hc. apply filter_In in Hc. apply Hc.
Qed.

Lemma replace_plate old new s :
  plate_char new = true ->
  Forall (fun c => plate_char c = true) s ->
  Forall (fun c => plate_char c = true) (ANPRBackend.replace old new s).
Proof.
  intros Hn H. unfold ANPRBackend.replace. apply Forall_map.
  eapply Forall_impl; [ | exact H ]. intros c Hc. simpl. now destruct (N.eqb c old).
Qed.

Lemma replaced_plate s :
  Forall (fun c => plate_char c = true) s ->
  Forall (fun c => plate_char c = true) (replaced s).
Proof. intros H. unfold replaced. repeat apply replace_plate; auto. Qed.

Lemma replace_removes old new s : new <> old -> ~ In old (ANPRBackend.replace old new s).
Proof.
  intros Hne Hin. unfold ANPRBackend.replace in Hin. apply in_map_iff in Hin.
  destruct Hin as (c & E & _). destruct (N.eqb_spec c old); congruence.
Qed.

Lemma replace_keeps_out x old new s :
  x <> new -> ~ In x s -> ~ In x (ANPRBackend.replace old new s).
Proof.
  intros Hne Hs Hin. unfold ANPRBackend.replace in Hin. apply in_map_iff in Hin.
  destruct Hin as (c & E & Hc). destruct (N.eqb c old); [ congruence | ].
  subst c. contradiction.
Qed.

Lemma replaced_no_018 s :
  ~ In 48%N (replaced s) /\ ~ In 49%N (replaced s) /\ ~ In 56%N (replaced s).
Proof.
  unfold replaced. repeat split.
  - do 2 (apply replace_keeps_out; [ discriminate | ]). apply replace_removes. discriminate.
  - apply replace_keeps_out; [ discriminate | ]. apply replace_removes. discriminate.
  - apply replace_removes. discriminate.
Qed.

Lemma replace_absent old new s : ~ In old s -> ANPRBackend.replace old new s = s.
Proof.
  unfold ANPRBackend.replace. induction s as [ | c s IH ]; intros H; [ reflexivity | ].
  simpl. destruct (N.eqb_spec c old) as [ -> | _ ].
  - destruct H. now left.
  - rewrite IH; [ reflexivity | ]. intros Hin. apply H. now right.
Qed.

Lemma replaced_absent s :
  ~ In 48%N s -> ~ In 49%N s -> ~ In 56%N s -> replaced s = s.
Proof.
  intros H0 H1 H8. unfold replaced.
  rewrite (replace_absent 48%N 79%N s H0), (replace_absent 49%N 73%N s H1).
  now apply replace_absent.
Qed.

Lemma findall_head_part U s m ms :
  findall (ANPRBackend.plate_pattern U) s = m :: ms ->
  backend_grammar U m /\ exists pre post, s = pre ++ m ++ post.
Proof.
  intros H. apply findall_from_head in H. destruct H as (pre & post & E & L).
  apply backend_pattern_lang in L. eauto.
Qed.

Lemma Forall_part {A} (P : A -> Prop) pre m post :
  Forall P (pre ++ m ++ post) -> Forall P m.
Proof. intros H. apply Forall_app in H. destruct H as [_ H]. now apply Forall_app in H. Qed.

Lemma not_in_part {A} (x : A) pre m post : ~ In x (pre ++ m ++ post) -> ~ In x m.
Proof. intros H Hin. apply H. apply in_or_app. right. apply in_or_app. now left. Qed.

Lemma stripped_plate_id U s :
  Forall (fun c => plate_char c = true) s -> stripped U s = s.
Proof.
  unfold stripped, upper. induction 1 as [ | c s Hc _ IH ]; [ reflexivity | ].
  destruct (plate_char_clean U c Hc) as [_ Hu]. cbn [flat_map]. rewrite Hu.
  cbn [app filter]. unfold ANPRBackend.upper_or_digit at 1.
  unfold plate_char in Hc. rewrite Hc, IH. reflexivity.
Qed.

Lemma post_process_plate_text_cases U text :
  let t := replaced (stripped U text) in
  (len (stripped U text) < 6
   /\ ANPRBackend._post_process_plate_text U text = Ok (stripped U text))
  \/ (6 <= len (stripped U text)
      /\ findall (ANPRBackend.plate_pattern U) t = []
      /\ ANPRBackend._post_process_plate_text U text = Ok t)
  \/ (6 <= len (stripped U text)
      /\ exists m ms, findall (ANPRBackend.plate_pattern U) t = m :: ms
                      /\ ANPRBackend._post_process_plate_text U text = Ok m).
Proof.
  cbv zeta. rewrite post_process_plate_text_eq.
  destruct (6 <=? len (stripped U text)) eqn:E.
  - apply Nat.leb_le in E. right.
    destruct (findall _ _) as [ | m ms ]; [ left | right ]; eauto.
  - apply Nat.leb_gt in E. left. auto.
Qed.

Lemma replace_length old new s : len (ANPRBackend.replace old new s) = len s.
Proof. unfold len, ANPRBackend.replace. apply length_map. Qed.

Lemma replaced_length s : len (replaced s) = len s.
Proof. unfold replaced. now rewrite !replace_length. Qed.

(** X5: [_post_process_plate_text] never raises, and whatever the text, in
    any alphabet, its result consists of the letters A-Z and the digits 0-9
    only. *)
Theorem backend_text_alphabet (U : UnicodeData) (text : str) :
  exists s,
    ANPRBackend._post_process_plate_text U text = Ok s
    /\ Forall (fun c => plate_char c = true) s.
Proof.
  destruct (post_process_plate_text_cases U text)
    as [ (_ & E) | [ (_ & _ & E) | (_ & m & ms & F & E) ] ]; rewrite E.
  - eexists. split; [ reflexivity | apply stripped_plate ].
  - eexists. split; [ reflexivity | apply replaced_plate, stripped_plate ].
  - exists m. split; [ reflexivity | ].
    apply findall_head_part in F. destruct F as (_ & pre & post & F).
    apply (Forall_part _ pre m post). rewrite <- F. apply replaced_plate, stripped_plate.
Qed.

(** X6: a result of [_post_process_plate_text] with 6 characters or more
    contains none of the digits 0, 1 and 8: they have all become O, I and
    B, in digit positions too. *)
Theorem backend_text_no_018 (U : UnicodeData) (text s : str) :
  ANPRBackend._post_process_plate_text U text = Ok s ->
  6 <= len s ->
  ~ In 48%N s /\ ~ In 49%N s /\ ~ In 56%N s.
Proof.
  destruct (post_process_plate_text_cases U text)
    as [ (Hl & E) | [ (_ & _ & E) | (_ & m & ms & F & E) ] ]; rewrite E; intros [= <-] Hs.
  - lia.
  - apply replaced_no_018.
  - apply findall_head_part in F. destruct F as (_ & pre & post & F).
    destruct (replaced_no_018 (stripped U text)) as (H0 & H1 & H8).
    rewrite F in H0, H1, H8. repeat split; eapply not_in_part; eassumption.
Qed.

Lemma backend_text_no_018_witness :
  ~ In 48%N (lit "MHO2BHI234") /\ ~ In 49%N (lit "MHO2BHI234") /\ ~ In 56%N (lit "MHO2BHI234").
Proof.
  apply (backend_text_no_018 ucd_excerpt (lit "mh02 bh1234") (lit "MHO2BHI234")).
  - reflexivity.
  - vm_compute. lia.
Defined.

(** X7: for a stripped text of 6 characters or more, the result of
    [_post_process_plate_text] is a contiguous part of the rewritten text
    that has the plate format (2 letters, 1-2 digits, 1-2 letters, 1-4
    digits), and it is the whole rewritten text exactly when no part of it
    has that format. *)
Theorem backend_text_plate_or_whole (U : UnicodeData) (text s : str) :
  ANPRBackend._post_process_plate_text U text = Ok s ->
  6 <= len (stripped U text) ->
  (backend_grammar U s
   /\ exists pre post, replaced (stripped U text) = pre ++ s ++ post)
  \/ (s = replaced (stripped U text)
      /\ forall pre m post, s = pre ++ m ++ post -> ~ backend_grammar U m).
Proof.
  destruct (post_process_plate_text_cases U text)
    as [ (Hl & E) | [ (_ & F & E) | (_ & m & ms & F & E) ] ]; rewrite E; intros [= <-] Hs.
  - lia.
  - right. split; [ reflexivity | ]. intros pre m post Em G.
    assert (Hm : m <> []).
    { intros ->. apply backend_grammar_length in G. simpl in G. lia. }
    apply (findall_from_none _ _ 0 F pre m post Em Hm).
    now apply backend_grammar_lang.
  - left. now apply findall_head_part in F.
Qed.

Lemma backend_text_plate_or_whole_witness :
  (backend_grammar ucd_excerpt (lit "KA25MN2345")
   /\ exists pre post,
        replaced (stripped ucd_excerpt (lit "ind ka25mn2345x")) = pre ++ lit "KA25MN2345" ++ post)
  \/ (lit "KA25MN2345" = replaced (stripped ucd_excerpt (lit "ind ka25mn2345x"))
      /\ forall pre m post, lit "KA25MN2345" = pre ++ m ++ post -> ~ backend_grammar ucd_excerpt m).
Proof.
  apply (backend_text_plate_or_whole ucd_excerpt (lit "ind ka25mn2345x") (lit "KA25MN2345")).
  - reflexivity.
  - vm_compute. lia.
Defined.

(** What every result is made of. *)
Lemma plate_text_result U text s :
  ANPRBackend._post_process_plate_text U text = Ok s ->
  Forall (fun c => plate_char c = true) s
  /\ (6 <= len s -> ~ In 48%N s /\ ~ In 49%N s /\ ~ In 56%N s).
Proof.
  destruct (post_process_plate_text_cases U text)
    as [ (Hl & E) | [ (_ & _ & E) | (_ & m & ms & F & E) ] ]; rewrite E; intros [= <-].
  - split; [ apply stripped_plate | lia ].
  - split; [ apply replaced_plate, stripped_plate | intros _; apply replaced_no_018 ].
  - apply findall_head_part in F. destruct F as (_ & pre & post & F).
    pose proof (replaced_plate _ (stripped_plate U text)) as P.
    destruct (replaced_no_018 (stripped U text)) as (H0 & H1 & H8).
    rewrite F in P, H0, H1, H8. split; [ now apply Forall_part in P | ].
    intros _. repeat split; eapply not_in_part; eassumption.
Qed.

(** X8: [_post_process_plate_text] is idempotent: applied to its own
    result it returns it unchanged. *)
Theorem backend_text_idempotent (U : UnicodeData) (text s : str) :
  ANPRBackend._post_process_plate_text U text = Ok s ->
  ANPRBackend._post_process_plate_text U s = Ok s.
Proof.
  intros H.
  assert (P : Forall (fun c => plate_char c = true) s) by apply (plate_text_result U text s H).
  assert (S : stripped U s = s) by now apply stripped_plate_id.
  rewrite post_process_plate_text_eq, S.
  destruct (6 <=? len s) eqn:L; [ | reflexivity ]. apply Nat.leb_le in L.
  destruct (plate_text_result U text s H) as (_ & N). destruct (N L) as (H0 & H1 & H8).
  rewrite (replaced_absent s H0 H1 H8).
  destruct (post_process_plate_text_cases U text)
    as [ (Hl & E) | [ (_ & F & E) | (_ & m & ms & F & E) ] ];
    rewrite E in H; injection H as <-.
  - rewrite <- S in L at 1. rewrite S in L. lia.
  - now rewrite F.
  - apply findall_head_part in F. destruct F as (G & _).
    destruct (findall_backend_grammar U m G) as (ms' & ->). reflexivity.
Qed.

Lemma backend_text_idempotent_witness :
  ANPRBackend._post_process_plate_text ucd_excerpt (lit "KA25MN2345") = Ok (lit "KA25MN2345").
Proof.
  apply (backend_text_idempotent ucd_excerpt (lit "ind ka25mn2345x") (lit "KA25MN2345")).
  reflexivity.
Defined.

(** ** The choice of the best OCR line *)

Lemma max_from_spec {A} (key : A -> float) l : forall best,
  exists i,
    nth_error (best :: l) i = Some (ANPRBackend.max_from key best l)
    /\ (forall j y, nth_error (best :: l) j = Some y ->
                    (key y <= key (ANPRBackend.max_from key best l))%Q)
    /\ (forall j y, j < i -> nth_error (best :: l) j = Some y ->
                    (key y < key (ANPRBackend.max_from key best l))%Q).
Proof.
  induction l as [ | x l IH ]; intros best.
  - exists 0. split; [ reflexivity | split ].
    + intros [ | [ | j ] ] y; simpl; try discriminate. intros [= <-]. apply Qle_refl.
    + intros j y Hj. lia.
  - cbn [ANPRBackend.max_from]. destruct (float_lt (key best) (key x)) eqn:L.
    + apply float_lt_true in L. destruct (IH x) as (i & Hi & Hmax & Hbefore).
      set (r := ANPRBackend.max_from key x l) in *.
      assert (Hx : (key x <= key r)%Q) by apply (Hmax 0 x eq_refl).
      exists (S i). split; [ exact Hi | split ].
      * intros [ | j ] y; [ intros [= <-] | apply Hmax ].
        apply Qlt_le_weak. eapply Qlt_le_trans; eassumption.
      * intros [ | j ] y Hj; [ intros [= <-] | apply Hbefore; lia ].
        eapply Qlt_le_trans; eassumption.
    + apply float_lt_false in L. destruct (IH best) as (i & Hi & Hmax & Hbefore).
      set (r := ANPRBackend.max_from key best l) in *.
      assert (Hb : (key best <= key r)%Q) by apply (Hmax 0 best eq_refl).
      destruct i as [ | i ].
      * exists 0. split; [ exact Hi | split ].
        -- intros [ | [ | j ] ] y; [ apply (Hmax 0) | | apply (Hmax (S j)) ].
           intros [= <-]. eapply Qle_trans; eassumption.
        -- intros j y Hj. lia.
      * exists (S (S i)). split; [ exact Hi | split ].
        -- intros [ | [ | j ] ] y; [ apply (Hmax 0) | | apply (Hmax (S j)) ].
           intros [= <-]. eapply Qle_trans; eassumption.
        -- intros [ | [ | j ] ] y Hj.
           ++ apply (Hbefore 0). lia.
           ++ intros [= <-]. eapply Qle_lt_trans; [ exact L | ].
              apply (Hbefore 0 best); [ lia | reflexivity ].
           ++ apply (Hbefore (S j)). lia.
Qed.

(** X9: ANPRBackend's [recognize_plate] looks at one OCR line only, the
    first of highest confidence: it returns the confidence of that line and
    the post-processed text of that line, whatever the text looks like; no
    line of lower confidence is considered.  Without OCR result it returns
    the empty text with confidence 0.0. *)
Theorem backend_recognize_best_line (U : UnicodeData) (B : Type)
        (ocr_result : list (B * str * float)) :
  (ocr_result = [] /\ ANPRBackend.recognize_plate U ocr_result = ([], 0%Q))
  \/ exists i bbox raw conf,
       nth_error ocr_result i = Some (bbox, raw, conf)
       /\ ANPRBackend._post_process_plate_text U raw
          = Ok (fst (ANPRBackend.recognize_plate U ocr_result))
       /\ snd (ANPRBackend.recognize_plate U ocr_result) = conf
       /\ (forall j b t c, nth_error ocr_result j = Some (b, t, c) -> (c <= conf)%Q)
       /\ (forall j b t c, j < i -> nth_error ocr_result j = Some (b, t, c) -> (c < conf)%Q).
Proof.
  destruct ocr_result as [ | line rest ]; [ left; split; reflexivity | right ].
  unfold ANPRBackend.recognize_plate. cbn [truthy negb map].
  set (f := fun line : B * str * float => (snd (fst line), snd line)).
  destruct (max_from_spec snd (map f rest) (f line)) as (i & Hi & Hmax & Hbefore).
  change (f line :: map f rest) with (map f (line :: rest)) in *.
  destruct (ANPRBackend.max_from snd (f line) (map f rest)) as [raw conf] eqn:M.
  rewrite nth_error_map in Hi.
  destruct (nth_error (line :: rest) i) as [ [[bbox raw'] conf'] | ] eqn:Ni; [ | discriminate ].
  unfold f in Hi. cbn [fst snd] in Hi. injection Hi as <- <-.
  change (snd (fst line), snd line) with (f line). rewrite M.
  pose proof (post_process_plate_text_eq U raw') as E. rewrite E.
  cbn [fst snd].
  exists i, bbox, raw', conf'. split; [ exact Ni | split; [ exact E | split; [ reflexivity | split ] ] ].
  - intros j b t c Hj. apply (Hmax j (t, c)). rewrite nth_error_map, Hj. reflexivity.
  - intros j b t c Hlt Hj. apply (Hbefore j (t, c) Hlt). rewrite nth_error_map, Hj. reflexivity.
Qed.

(** * ModelHandler *)

(** X10: the text ModelHandler's [recognize_plate] returns is never empty:
    it has at least 5 characters, all alphanumeric, a letter and a digit
    among them, and it is the text of the first OCR result of highest
    confidence with the other characters removed (and not upper-cased). *)
Theorem handler_recognize_valid (U : UnicodeData) (B : Type)
        (results : list (B * str * float)) (text : str) :
  Handler.recognize_plate U results = Some text ->
  5 <= len text
  /\ Forall (fun c => isalnum U c = true) text
  /\ (exists c, In c text /\ isalpha U c = true)
  /\ (exists c, In c text /\ isdigit U c = true)
  /\ exists i bbox raw conf,
       nth_error results i = Some (bbox, raw, conf)
       /\ text = filter (isalnum U) raw
       /\ (forall j b t c, nth_error results j = Some (b, t, c) -> (c <= conf)%Q)
       /\ (forall j b t c, j < i -> nth_error results j = Some (b, t, c) -> (c < conf)%Q).
Proof.
  destruct results as [ | x l ]; [ discriminate | ]. cbn [Handler.recognize_plate].
  destruct (max_from_spec snd l x) as (i & Hi & Hmax & Hbefore).
  destruct (ANPRBackend.max_from snd x l) as [[bbox raw] conf] eqn:M. cbn [fst snd] in *.
  unfold ModelHandler._is_valid_plate.
  destruct (len (filter (isalnum U) raw) <? 5) eqn:L; [ discriminate | ].
  destruct (existsb (isalpha U) (filter (isalnum U) raw)) eqn:Ea; [ | discriminate ].
  destruct (existsb (isdigit U) (filter (isalnum U) raw)) eqn:Ed; [ | discriminate ].
  intros [= <-]. apply Nat.ltb_ge in L.
  apply existsb_exists in Ea. apply existsb_exists in Ed.
  split; [ exact L | split; [ | split; [ exact Ea | split; [ exact Ed | ] ] ] ].
  - apply Forall_forall. intros c Hc. apply filter_In in Hc. apply Hc.
  - exists i, bbox, raw, conf. split; [ exact Hi | split; [ reflexivity | split ] ].
    + intros j b t c Hj. apply (Hmax j (b, t, c) Hj).
    + intros j b t c Hlt Hj. apply (Hbefore j (b, t, c) Hlt Hj).
Qed.

Lemma handler_recognize_valid_witness :
  5 <= len (lit "ka05mn")
  /\ Forall (fun c => isalnum ucd_excerpt c = true) (lit "ka05mn")
  /\ (exists c, In c (lit "ka05mn") /\ isalpha ucd_excerpt c = true)
  /\ (exists c, In c (lit "ka05mn") /\ isdigit ucd_excerpt c = true)
  /\ exists i bbox raw conf,
       nth_error [(tt, lit "IND", (3 # 10)%Q); (tt, lit "ka 05-mn", (9 # 10)%Q)] i
       = Some (bbox, raw, conf)
       /\ lit "ka05mn" = filter (isalnum ucd_excerpt) raw
       /\ (forall j b t c,
              nth_error [(tt, lit "IND", (3 # 10)%Q); (tt, lit "ka 05-mn", (9 # 10)%Q)] j
              = Some (b, t, c) -> (c <= conf)%Q)
       /\ (forall j b t c, j < i ->
              nth_error [(tt, lit "IND", (3 # 10)%Q); (tt, lit "ka 05-mn", (9 # 10)%Q)] j
              = Some (b, t, c) -> (c < conf)%Q).
Proof.
  apply (handler_recognize_valid ucd_excerpt unit
           [(tt, lit "IND", (3 # 10)%Q); (tt, lit "ka 05-mn", (9 # 10)%Q)] (lit "ka05mn")).
  reflexivity.
Defined.

(** X11: the padded box of [detect_vehicles] never leaves the image, and
    it covers the detected box wherever that lies inside the image. *)
Theorem pad_box_inside (width height x1 y1 x2 y2 : Z) :
  (0 <= width)%Z -> (0 <= height)%Z ->
  match Handler.pad_box width height (x1, y1, x2, y2) with
  | (x1', y1', x2', y2') =>
      (0 <= x1' /\ 0 <= y1' /\ x2' <= width /\ y2' <= height
       /\ x1' <= Z.max 0 x1 /\ y1' <= Z.max 0 y1
       /\ Z.min width x2 <= x2' /\ Z.min height y2 <= y2')%Z
  end.
Proof. intros Hw Hh. unfold Handler.pad_box. lia. Qed.

Lemma pad_box_inside_witness :
  match Handler.pad_box 640 480 (5, 100, 635, 200)%Z with
  | (x1', y1', x2', y2') =>
      (0 <= x1' /\ 0 <= y1' /\ x2' <= 640 /\ y2' <= 480
       /\ x1' <= Z.max 0 5 /\ y1' <= Z.max 0 100
       /\ Z.min 640 635 <= x2' /\ Z.min 480 200 <= y2')%Z
  end.
Proof. apply (pad_box_inside 640 480 5 100 635 200); lia. Defined.

(** * The colour heuristic *)

Lemma color_loop_spec table hsv : forall m0 c0 m c,
  ANPRBackend.color_loop table hsv m0 c0 = (m, c) ->
  m0 <= m
  /\ (forall color ranges, In (color, ranges) table ->
                           ANPRBackend.count_pixels ranges hsv <= m)
  /\ ((m = m0 /\ c = c0)
      \/ (m0 < m
          /\ exists i ranges,
               nth_error table i = Some (c, ranges)
               /\ ANPRBackend.count_pixels ranges hsv = m
               /\ forall j c' r', j < i -> nth_error table j = Some (c', r') ->
                                  ANPRBackend.count_pixels r' hsv < m)).
Proof.
  induction table as [ | [color ranges] table IH ]; intros m0 c0 m c.
  - intros [= <- <-]. split; [ lia | split; [ intros ? ? [] | now left ] ].
  - cbn [ANPRBackend.color_loop].
    set (pixels := ANPRBackend.count_pixels ranges hsv).
    destruct (m0 <? pixels) eqn:L; intros H; apply IH in H;
      destruct H as (Hle & Hall & Hc).
    + apply Nat.ltb_lt in L. split; [ lia | split ].
      * intros color' ranges' [ [= <- <-] | Hin ]; [ exact Hle | now apply (Hall color') ].
      * right. split; [ lia | ].
        destruct Hc as [ (-> & ->) | (Hlt & i & r & Hi & Hr & Hb) ].
        -- exists 0, ranges. split; [ reflexivity | split; [ reflexivity | intros; lia ] ].
        -- exists (S i), r. split; [ exact Hi | split; [ exact Hr | ] ].
           intros [ | j ] c' r' Hj; [ intros [= <- <-]; exact Hlt | apply Hb; lia ].
    + apply Nat.ltb_ge in L. split; [ exact Hle | split ].
      * intros color' ranges' [ [= <- <-] | Hin ]; [ fold pixels; lia | now apply (Hall color') ].
      * destruct Hc as [ Hc | (Hlt & i & r & Hi & Hr & Hb) ]; [ now left | right ].
        split; [ exact Hlt | ]. exists (S i), r. split; [ exact Hi | split; [ exact Hr | ] ].
        intros [ | j ] c' r' Hj; [ intros [= <- <-]; fold pixels; lia | apply Hb; lia ].
Qed.

Lemma count_pixels_le ranges hsv : ANPRBackend.count_pixels ranges hsv <= len hsv.
Proof. unfold ANPRBackend.count_pixels, len. apply filter_length_le. Qed.



(** X13: the confidence of [detect_color] lies between 0 and 1, and an
    image without pixels gives "unknown" with confidence 0.0. *)
Theorem detect_color_confidence (hsv : list ANPRBackend.pixel) :
  (0 <= snd (ANPRBackend.detect_color hsv) <= 1)%Q
  /\ ANPRBackend.detect_color [] = ("unknown"%string, 0%Q).
Proof.
  split; [ | reflexivity ]. unfold ANPRBackend.detect_color.
  destruct (ANPRBackend.color_loop ANPRBackend.color_ranges hsv 0 "unknown"%string)
    as [m c] eqn:E.
  apply color_loop_spec in E. destruct E as (_ & Hall & Hc).
  assert (Hm : m <= len hsv).
  { destruct Hc as [ (-> & _) | (_ & i & r & _ & <- & _) ]; [ lia | apply count_pixels_le ]. }
  destruct (len hsv) as [ | n ] eqn:Hn; cbn [snd].
  - split; [ apply Qle_refl | discriminate ].
  - unfold Qle. cbn [Qnum Qden]. rewrite <- Pos.of_nat_succ, Zpos_P_of_succ_nat. lia.
Qed.

(** * The accuracy metrics *)

Lemma str_eqb_eq a : forall b, str_eqb a b = true <-> a = b.
Proof.
  induction a as [ | x a IH ]; intros [ | y b ]; simpl; try (split; [ discriminate | discriminate ]).
  - tauto.
  - rewrite andb_true_iff, N.eqb_eq, IH. split; [ intros [-> ->]; reflexivity | intros [= -> ->]; auto ].
Qed.

Lemma str_eqb_refl a : str_eqb a a = true.
Proof. now apply str_eqb_eq. Qed.

Lemma str_eqb_sym a b : str_eqb a b = str_eqb b a.
Proof.
  destruct (str_eqb a b) eqn:E.
  - apply str_eqb_eq in E. subst. symmetry. apply str_eqb_refl.
  - destruct (str_eqb b a) eqn:E'; [ | reflexivity ].
    apply str_eqb_eq in E'. subst. now rewrite str_eqb_refl in E.
Qed.

Lemma item_at pre x rest : Evaluate.item (pre ++ x :: rest) (len pre) = Evaluate.Returned x.
Proof.
  unfold Evaluate.item, len. now rewrite nth_error_app2, Nat.sub_diag by lia.
Qed.

Lemma char_loop_ok a : forall b pre1 pre2 cc,
  len pre1 = len pre2 ->
  Evaluate.char_loop (pre1 ++ a) (pre2 ++ b) (len pre1) (Nat.min (len a) (len b)) cc
  = Evaluate.Returned (cc + agree a b).
Proof.
  induction a as [ | x a IH ]; intros b pre1 pre2 cc Hl.
  - simpl. now rewrite Nat.add_0_r.
  - destruct b as [ | y b ]; [ simpl; now rewrite Nat.add_0_r | ].
    cbn [len List.length Nat.min Evaluate.char_loop].
    rewrite item_at, Hl, item_at. cbn [Evaluate.andthen].
    assert (E1 : pre1 ++ x :: a = (pre1 ++ [x]) ++ a) by now rewrite <- app_assoc.
    assert (E2 : pre2 ++ y :: b = (pre2 ++ [y]) ++ b) by now rewrite <- app_assoc.
    assert (L1 : S (len pre2) = len (pre1 ++ [x])).
    { unfold len in *. rewrite length_app. simpl. lia. }
    rewrite E1, E2, L1.
    fold (len a) (len b). rewrite IH.
    + f_equal. cbn [agree]. destruct (N.eqb x y); lia.
    + unfold len in *. rewrite !length_app. simpl. lia.
Qed.

Lemma pair_loop_ok pairs : forall c cc tc,
  Evaluate.pair_loop pairs c cc tc
  = Evaluate.Returned (c + exact_pairs pairs, cc + agree_sum pairs, tc + max_sum pairs).
Proof.
  induction pairs as [ | [pred gt] pairs IH ]; intros c cc tc.
  - simpl. unfold exact_pairs, agree_sum, max_sum. simpl. now rewrite !Nat.add_0_r.
  - cbn [Evaluate.pair_loop].
    pose proof (char_loop_ok pred gt [] [] cc eq_refl) as C.
    change (Evaluate.char_loop pred gt 0 (Nat.min (len pred) (len gt)) cc
            = Evaluate.Returned (cc + agree pred gt)) in C.
    rewrite C. cbn [Evaluate.andthen].
    rewrite IH. unfold exact_pairs, agree_sum, max_sum.
    cbn [filter map list_sum fst snd].
    destruct (str_eqb pred gt); cbn [len List.length]; unfold len, list_sum;
      cbn [fold_right];
      match goal with
      | |- Evaluate.Returned (?a, ?b, ?c) = Evaluate.Returned (?a', ?b', ?c') =>
          replace a with a' by lia; replace b with b' by lia; replace c with c' by lia
      end; reflexivity.
Qed.

Lemma calculate_accuracy_eq predictions ground_truth :
  len predictions = len ground_truth ->
  Evaluate.calculate_accuracy predictions ground_truth
  = let pairs := combine predictions ground_truth in
    Evaluate.Returned
      {| Evaluate.exact_accuracy :=
           if truthy predictions
           then Evaluate.ratio (exact_pairs pairs) (len predictions) else 0%Q;
         Evaluate.character_accuracy :=
           if negb (max_sum pairs =? 0)
           then Evaluate.ratio (agree_sum pairs) (max_sum pairs) else 0%Q;
         Evaluate.correct := exact_pairs pairs;
         Evaluate.total := len predictions;
         Evaluate.character_correct := agree_sum pairs;
         Evaluate.total_characters := max_sum pairs |}.
Proof.
  intros Hl. unfold Evaluate.calculate_accuracy.
  apply Nat.eqb_eq in Hl. rewrite Hl. cbn [negb].
  rewrite pair_loop_ok. reflexivity.
Qed.

Lemma calculate_accuracy_raises predictions ground_truth :
  len predictions <> len ground_truth ->
  Evaluate.calculate_accuracy predictions ground_truth = Evaluate.Raised Evaluate.ValueError.
Proof.
  intros H. unfold Evaluate.calculate_accuracy. apply Nat.eqb_neq in H. now rewrite H.
Qed.

(** X14: [calculate_accuracy] raises [ValueError] exactly when the two
    lists differ in length; on lists of equal length it returns its
    metrics, and no index it uses is out of range. *)
Theorem accuracy_length_check (predictions ground_truth : list str) :
  (len predictions <> len ground_truth ->
   Evaluate.calculate_accuracy predictions ground_truth = Evaluate.Raised Evaluate.ValueError)
  /\ (len predictions = len ground_truth ->
      exists m, Evaluate.calculate_accuracy predictions ground_truth = Evaluate.Returned m).
Proof.
  split; intros H.
  - unfold Evaluate.calculate_accuracy. apply Nat.eqb_neq in H. now rewrite H.
  - rewrite calculate_accuracy_eq by exact H. eauto.
Qed.

Lemma agree_le a : forall b, agree a b <= Nat.min (len a) (len b).
Proof.
  induction a as [ | x a IH ]; intros [ | y b ]; simpl; try lia.
  specialize (IH b). unfold len in *. destruct (N.eqb x y); lia.
Qed.

Lemma agree_full a : forall b, agree a b = Nat.max (len a) (len b) -> a = b.
Proof.
  induction a as [ | x a IH ]; intros [ | y b ]; simpl; try reflexivity; try discriminate.
  pose proof (agree_le a b) as Hle. unfold len in *.
  destruct (N.eqb_spec x y) as [ -> | Hne ]; intros H.
  - f_equal. apply IH. unfold len. lia.
  - lia.
Qed.

Lemma agree_refl a : agree a a = len a.
Proof.
  induction a as [ | x a IH ]; [ reflexivity | ].
  simpl. rewrite N.eqb_refl, IH. reflexivity.
Qed.

Lemma agree_sym a : forall b, agree a b = agree b a.
Proof.
  induction a as [ | x a IH ]; intros [ | y b ]; simpl; try reflexivity.
  now rewrite IH, N.eqb_sym.
Qed.

Lemma exact_pairs_le pairs : exact_pairs pairs <= len pairs.
Proof. unfold exact_pairs, len. apply filter_length_le. Qed.

Lemma agree_sum_le pairs : agree_sum pairs <= max_sum pairs.
Proof.
  unfold agree_sum, max_sum. induction pairs as [ | [a b] pairs IH ]; simpl; [ lia | ].
  pose proof (agree_le a b). lia.
Qed.

Lemma combine_same (l : list str) : forall l',
  len l = len l' ->
  (forall a b, In (a, b) (combine l l') -> a = b) -> l = l'.
Proof.
  induction l as [ | x l IH ]; intros [ | y l' ] Hl H; try discriminate; [ reflexivity | ].
  f_equal.
  - apply H. now left.
  - apply IH; [ now injection Hl | ]. intros a b Hin. apply H. now right.
Qed.

Lemma exact_pairs_full pairs :
  exact_pairs pairs = len pairs -> forall a b, In (a, b) pairs -> a = b.
Proof.
  unfold exact_pairs. induction pairs as [ | [x y] pairs IH ]; intros H a b; [ intros [] | ].
  cbn [filter fst snd] in H.
  pose proof (exact_pairs_le pairs) as Hle. unfold exact_pairs in Hle.
  destruct (str_eqb x y) eqn:E; cbn [len List.length] in *; unfold len in *.
  - intros [ [= <- <-] | Hin ]; [ now apply str_eqb_eq | apply IH; [ lia | exact Hin ] ].
  - lia.
Qed.

Lemma agree_sum_full pairs :
  agree_sum pairs = max_sum pairs -> forall a b, In (a, b) pairs -> a = b.
Proof.
  unfold agree_sum, max_sum. induction pairs as [ | [x y] pairs IH ]; intros H a b; [ intros [] | ].
  pose proof (agree_sum_le pairs) as Hle. unfold agree_sum, max_sum in Hle.
  unfold list_sum in *. cbn [map fold_right fst snd] in H.
  pose proof (agree_le x y) as Hxy.
  intros [ [= <- <-] | Hin ]; [ apply agree_full; lia | apply IH; [ lia | exact Hin ] ].
Qed.

Lemma combine_diag_counts (l : list str) :
  exact_pairs (combine l l) = len l
  /\ agree_sum (combine l l) = max_sum (combine l l).
Proof.
  unfold exact_pairs, agree_sum, max_sum, list_sum.
  induction l as [ | x l [IH1 IH2] ]; [ split; reflexivity | ].
  cbn [combine filter map fold_right fst snd]. rewrite str_eqb_refl, agree_refl, Nat.max_id.
  cbn [len List.length] in *. unfold len in *. split; lia.
Qed.

(** X15: the counters of [calculate_accuracy] are bounded: [total] is the
    number of predictions, at most [total] predictions are [correct], and
    at most [total_characters] characters are [character_correct]. *)
Theorem accuracy_counts_bounded (predictions ground_truth : list str) (m : Evaluate.metrics) :
  Evaluate.calculate_accuracy predictions ground_truth = Evaluate.Returned m ->
  Evaluate.total m = len predictions
  /\ Evaluate.correct m <= Evaluate.total m
  /\ Evaluate.character_correct m <= Evaluate.total_characters m.
Proof.
  destruct (Nat.eq_dec (len predictions) (len ground_truth)) as [ Hl | Hl ].
  - rewrite calculate_accuracy_eq by exact Hl. cbv zeta. intros [= <-]. cbn.
    split; [ reflexivity | split; [ | apply agree_sum_le ] ].
    etransitivity; [ apply exact_pairs_le | ].
    unfold len. rewrite length_combine. unfold len in Hl. lia.
  - rewrite (calculate_accuracy_raises predictions ground_truth Hl). discriminate.
Qed.

Lemma accuracy_counts_bounded_witness :
  Evaluate.total
    {| Evaluate.exact_accuracy := (1 # 2)%Q; Evaluate.character_accuracy := (9 # 10)%Q;
       Evaluate.correct := 1; Evaluate.total := 2;
       Evaluate.character_correct := 9; Evaluate.total_characters := 10 |}
  = len [lit "KA05"; lit "MH12AB"]
  /\ Evaluate.correct
       {| Evaluate.exact_accuracy := (1 # 2)%Q; Evaluate.character_accuracy := (9 # 10)%Q;
          Evaluate.correct := 1; Evaluate.total := 2;
          Evaluate.character_correct := 9; Evaluate.total_characters := 10 |}
     <= Evaluate.total
          {| Evaluate.exact_accuracy := (1 # 2)%Q; Evaluate.character_accuracy := (9 # 10)%Q;
             Evaluate.correct := 1; Evaluate.total := 2;
             Evaluate.character_correct := 9; Evaluate.total_characters := 10 |}
  /\ Evaluate.character_correct
       {| Evaluate.exact_accuracy := (1 # 2)%Q; Evaluate.character_accuracy := (9 # 10)%Q;
          Evaluate.correct := 1; Evaluate.total := 2;
          Evaluate.character_correct := 9; Evaluate.total_characters := 10 |}
     <= Evaluate.total_characters
          {| Evaluate.exact_accuracy := (1 # 2)%Q; Evaluate.character_accuracy := (9 # 10)%Q;
             Evaluate.correct := 1; Evaluate.total := 2;
             Evaluate.character_correct := 9; Evaluate.total_characters := 10 |}.
Proof.
  apply (accuracy_counts_bounded [lit "KA05"; lit "MH12AB"] [lit "KA05"; lit "MH12A8"]).
  reflexivity.
Defined.

(** X16: each of the two scores of [calculate_accuracy] is perfect exactly
    when the predictions are the ground truth: all predictions are
    [correct] if and only if the two lists are equal, and so are all
    characters [character_correct]. *)
Theorem accuracy_perfect (predictions ground_truth : list str) (m : Evaluate.metrics) :
  Evaluate.calculate_accuracy predictions ground_truth = Evaluate.Returned m ->
  (Evaluate.correct m = Evaluate.total m <-> predictions = ground_truth)
  /\ (Evaluate.character_correct m = Evaluate.total_characters m
      <-> predictions = ground_truth).
Proof.
  destruct (Nat.eq_dec (len predictions) (len ground_truth)) as [ Hl | Hl ].
  - rewrite calculate_accuracy_eq by exact Hl. cbv zeta. intros [= <-]. cbn.
    assert (Hc : len (combine predictions ground_truth) = len predictions).
    { unfold len in *. rewrite length_combine. lia. }
    split; split.
    + intros H. rewrite <- Hc in H. apply combine_same; [ exact Hl | ].
      now apply exact_pairs_full.
    + intros <-. apply combine_diag_counts.
    + intros H. apply combine_same; [ exact Hl | ]. now apply agree_sum_full.
    + intros <-. apply combine_diag_counts.
  - rewrite (calculate_accuracy_raises predictions ground_truth Hl). discriminate.
Qed.

Lemma accuracy_perfect_witness :
  (Evaluate.correct
     {| Evaluate.exact_accuracy := (1 # 2)%Q; Evaluate.character_accuracy := (9 # 10)%Q;
        Evaluate.correct := 1; Evaluate.total := 2;
        Evaluate.character_correct := 9; Evaluate.total_characters := 10 |}
   = Evaluate.total
       {| Evaluate.exact_accuracy := (1 # 2)%Q; Evaluate.character_accuracy := (9 # 10)%Q;
          Evaluate.correct := 1; Evaluate.total := 2;
          Evaluate.character_correct := 9; Evaluate.total_characters := 10 |}
   <-> [lit "KA05"; lit "MH12AB"] = [lit "KA05"; lit "MH12A8"])
  /\ (Evaluate.character_correct
        {| Evaluate.exact_accuracy := (1 # 2)%Q; Evaluate.character_accuracy := (9 # 10)%Q;
           Evaluate.correct := 1; Evaluate.total := 2;
           Evaluate.character_correct := 9; Evaluate.total_characters := 10 |}
      = Evaluate.total_characters
          {| Evaluate.exact_accuracy := (1 # 2)%Q; Evaluate.character_accuracy := (9 # 10)%Q;
             Evaluate.correct := 1; Evaluate.total := 2;
             Evaluate.character_correct := 9; Evaluate.total_characters := 10 |}
      <-> [lit "KA05"; lit "MH12AB"] = [lit "KA05"; lit "MH12A8"]).
Proof.
  apply (accuracy_perfect [lit "KA05"; lit "MH12AB"] [lit "KA05"; lit "MH12A8"]).
  reflexivity.
Defined.

Lemma counts_sym p : forall g,
  exact_pairs (combine g p) = exact_pairs (combine p g)
  /\ agree_sum (combine g p) = agree_sum (combine p g)
  /\ max_sum (combine g p) = max_sum (combine p g).
Proof.
  unfold exact_pairs, agree_sum, max_sum, list_sum.
  induction p as [ | x p IH ]; intros [ | y g ]; try (repeat split; reflexivity).
  destruct (IH g) as (I1 & I2 & I3).
  cbn [combine filter map fold_right fst snd].
  rewrite (str_eqb_sym y x), (agree_sym y x), (Nat.max_comm (len y) (len x)), I2, I3.
  repeat split. destruct (str_eqb x y); cbn [len List.length]; unfold len in *; lia.
Qed.

(** X17: [calculate_accuracy] does not tell its arguments apart: with the
    predictions and the ground truth exchanged it raises or returns the
    same. *)
Theorem accuracy_symmetric (predictions ground_truth : list str) :
  Evaluate.calculate_accuracy ground_truth predictions
  = Evaluate.calculate_accuracy predictions ground_truth.
Proof.
  destruct (Nat.eq_dec (len predictions) (len ground_truth)) as [ Hl | Hl ].
  - rewrite !calculate_accuracy_eq by congruence. cbv zeta.
    destruct (counts_sym predictions ground_truth) as (-> & -> & ->). rewrite Hl.
    replace (truthy ground_truth) with (truthy predictions); [ reflexivity | ].
    destruct predictions, ground_truth; try reflexivity; discriminate.
  - rewrite !calculate_accuracy_raises by congruence. reflexivity.
Qed.

Lemma ratio_bounds a b : a <= b -> 0 < b -> (0 <= Evaluate.ratio a b <= 1)%Q.
Proof.
  intros Hab Hb. unfold Evaluate.ratio, Qle. cbn [Qnum Qden].
  destruct b as [ | b ]; [ lia | ].
  rewrite <- Pos.of_nat_succ, Zpos_P_of_succ_nat. lia.
Qed.

(** X18: both accuracies that [calculate_accuracy] returns lie between 0
    and 1; with no prediction at all both are 0. *)
Theorem accuracy_ratios_bounded (predictions ground_truth : list str) (m : Evaluate.metrics) :
  Evaluate.calculate_accuracy predictions ground_truth = Evaluate.Returned m ->
  (0 <= Evaluate.exact_accuracy m <= 1)%Q
  /\ (0 <= Evaluate.character_accuracy m <= 1)%Q
  /\ (predictions = [] ->
      Evaluate.exact_accuracy m = 0%Q /\ Evaluate.character_accuracy m = 0%Q).
Proof.
  destruct (Nat.eq_dec (len predictions) (len ground_truth)) as [ Hl | Hl ].
  - rewrite calculate_accuracy_eq by exact Hl. cbv zeta. intros [= <-]. cbn.
    assert (Hc : len (combine predictions ground_truth) = len predictions).
    { unfold len in *. rewrite length_combine. lia. }
    split; [ | split ].
    + destruct predictions as [ | x p ]; cbn [truthy]; [ split; [ apply Qle_refl | discriminate ] | ].
      apply ratio_bounds; [ rewrite <- Hc; apply exact_pairs_le | simpl; lia ].
    + destruct (max_sum (combine predictions ground_truth) =? 0) eqn:E; cbn [negb].
      * split; [ apply Qle_refl | discriminate ].
      * apply Nat.eqb_neq in E. apply ratio_bounds; [ apply agree_sum_le | lia ].
    + intros ->. split; reflexivity.
  - rewrite (calculate_accuracy_raises predictions ground_truth Hl). discriminate.
Qed.

Lemma accuracy_ratios_bounded_witness :
  (0 <= (1 # 2) <= 1)%Q /\ (0 <= (9 # 10) <= 1)%Q
  /\ ([lit "KA05"; lit "MH12AB"] = [] -> (1 # 2)%Q = 0%Q /\ (9 # 10)%Q = 0%Q).
Proof.
  apply (accuracy_ratios_bounded [lit "KA05"; lit "MH12AB"] [lit "KA05"; lit "MH12A8"]
           {| Evaluate.exact_accuracy := (1 # 2)%Q; Evaluate.character_accuracy := (9 # 10)%Q;
              Evaluate.correct := 1; Evaluate.total := 2;
              Evaluate.character_correct := 9; Evaluate.total_characters := 10 |}).
  reflexivity.
Defined.

(** * The statistics of a dataset *)

Section Tally.

Variables (A K : Type) (eqb : K -> K -> bool) (key : A -> K).
Hypothesis eqb_eq : forall a b, eqb a b = true <-> a = b.

Lemma eqb_trans_false k k' k0 : eqb k' k0 = false -> eqb k k0 = true -> eqb k k' = false.
Proof.
  intros H1 H2. apply eqb_eq in H2. subst k0.
  destruct (eqb k k') eqn:E; [ | reflexivity ].
  apply eqb_eq in E. subst k'. assert (R : eqb k k = true) by now apply eqb_eq. congruence.
Qed.

Lemma count_of_bump k k' d :
  DatasetLoader.count_of eqb k (DatasetLoader.bump eqb k' d)
  = if eqb k k'
    then Some (S (match DatasetLoader.count_of eqb k d with Some v => v | None => 0 end))
    else DatasetLoader.count_of eqb k d.
Proof.
  induction d as [ | [k0 v] d IH ]; cbn [DatasetLoader.bump DatasetLoader.count_of].
  - destruct (eqb k k'); reflexivity.
  - destruct (eqb k' k0) eqn:E0; cbn [DatasetLoader.count_of].
    + apply eqb_eq in E0. subst k0. destruct (eqb k k'); reflexivity.
    + destruct (eqb k k0) eqn:E; [ | exact IH ].
      now rewrite (eqb_trans_false k k' k0 E0 E).
Qed.

Lemma tally_count k data : forall d0,
  DatasetLoader.count_of eqb k
    (fold_left (fun d x => DatasetLoader.bump eqb (key x) d) data d0)
  = match DatasetLoader.count_of eqb k d0 with
    | Some v => Some (v + occurrences eqb key k data)
    | None => if occurrences eqb key k data =? 0 then None
              else Some (occurrences eqb key k data)
    end.
Proof.
  unfold occurrences. induction data as [ | x data IH ]; intros d0.
  - simpl. destruct (DatasetLoader.count_of eqb k d0); [ now rewrite Nat.add_0_r | reflexivity ].
  - cbn [fold_left filter]. rewrite IH, count_of_bump.
    destruct (eqb k (key x)); cbn [len List.length].
    + destruct (DatasetLoader.count_of eqb k d0); cbn [Nat.eqb]; f_equal; unfold len; lia.
    + reflexivity.
Qed.

Lemma bump_sum k d :
  list_sum (map snd (DatasetLoader.bump eqb k d)) = S (list_sum (map snd d)).
Proof.
  unfold list_sum. induction d as [ | [k0 v] d IH ]; cbn [DatasetLoader.bump]; [ reflexivity | ].
  destruct (eqb k k0); cbn [map fold_right snd] in *; lia.
Qed.

Lemma tally_sum data : forall d0,
  list_sum (map snd (fold_left (fun d x => DatasetLoader.bump eqb (key x) d) data d0))
  = list_sum (map snd d0) + len data.
Proof.
  induction data as [ | x data IH ]; intros d0; simpl; [ lia | ].
  rewrite IH, bump_sum. unfold len. lia.
Qed.

End Tally.

(** X19: for a dataset that is not empty, [get_dataset_statistics] counts
    every item once in each histogram: [label_lengths] maps a length to
    the number of labels of that length and [patterns] maps a pattern to
    the number of labels with that pattern, lengths and patterns that do
    not occur are no keys, and the values of each histogram add up to
    [count], the number of items. *)
Theorem dataset_statistics_histograms (U : UnicodeData) (data : list DatasetLoader.item) :
  data <> [] ->
  exists lengths patterns,
    DatasetLoader.get_dataset_statistics U data
    = {| DatasetLoader.count := len data;
         DatasetLoader.label_lengths := Some lengths;
         DatasetLoader.patterns := Some patterns |}
    /\ (forall n,
          DatasetLoader.count_of Nat.eqb n lengths
          = if occurrences Nat.eqb (fun it => len (label_of it)) n data =? 0 then None
            else Some (occurrences Nat.eqb (fun it => len (label_of it)) n data))
    /\ (forall p,
          DatasetLoader.count_of str_eqb p patterns
          = if occurrences str_eqb (fun it => DatasetLoader.pattern_of U (label_of it)) p data =? 0
            then None
            else Some (occurrences str_eqb
                         (fun it => DatasetLoader.pattern_of U (label_of it)) p data))
    /\ list_sum (map snd lengths) = len data
    /\ list_sum (map snd patterns) = len data.
Proof.
  intros Hne. unfold DatasetLoader.get_dataset_statistics.
  destruct data as [ | it data ]; [ now destruct Hne | ]. cbn [truthy negb].
  eexists. eexists. split; [ reflexivity | ]. fold (label_of it).
  split; [ | split; [ | split ] ].
  - intros n.
    apply (tally_count _ _ Nat.eqb (fun it => len (label_of it)) Nat.eqb_eq n (it :: data) []).
  - intros p.
    apply (tally_count _ _ str_eqb (fun it => DatasetLoader.pattern_of U (label_of it))
             str_eqb_eq p (it :: data) []).
  - apply (tally_sum _ _ Nat.eqb (fun it => len (label_of it)) (it :: data) []).
  - apply (tally_sum _ _ str_eqb (fun it => DatasetLoader.pattern_of U (label_of it))
             (it :: data) []).
Qed.

Lemma dataset_statistics_histograms_witness :
  exists lengths patterns,
    DatasetLoader.get_dataset_statistics ucd_excerpt sample_data
    = {| DatasetLoader.count := len sample_data;
         DatasetLoader.label_lengths := Some lengths;
         DatasetLoader.patterns := Some patterns |}
    /\ (forall n,
          DatasetLoader.count_of Nat.eqb n lengths
          = if occurrences Nat.eqb (fun it => len (label_of it)) n sample_data =? 0 then None
            else Some (occurrences Nat.eqb (fun it => len (label_of it)) n sample_data))
    /\ (forall p,
          DatasetLoader.count_of str_eqb p patterns
          = if occurrences str_eqb
                 (fun it => DatasetLoader.pattern_of ucd_excerpt (label_of it)) p sample_data =? 0
            then None
            else Some (occurrences str_eqb
                         (fun it => DatasetLoader.pattern_of ucd_excerpt (label_of it))
                         p sample_data))
    /\ list_sum (map snd lengths) = len sample_data
    /\ list_sum (map snd patterns) = len sample_data.
Proof.
  apply (dataset_statistics_histograms ucd_excerpt sample_data). discriminate.
Defined.

Example sample_statistics :
  DatasetLoader.get_dataset_statistics ucd_excerpt sample_data
  = {| DatasetLoader.count := 3;
       DatasetLoader.label_lengths := Some [(10, 2); (0, 1)];
       DatasetLoader.patterns := Some [(lit "AADDAADDDD", 2); ([], 1)] |}.
Proof. reflexivity. Qed.

(** * Navigating the dataset *)

Lemma browse_ok data s : nav_ok (ANPRApp.browse_dataset data s).
Proof.
  unfold ANPRApp.browse_dataset, nav_ok. destruct data as [ | it data ]; cbn.
  - split; [ lia | split; [ reflexivity | intros H; now destruct H ] ].
  - split; [ lia | split; [ discriminate | ] ].
    intros _. split; [ lia | split; [ split; [ discriminate | lia ] | discriminate ] ].
Qed.

Lemma previous_ok s : nav_ok s -> nav_ok (ANPRApp.previous_image s).
Proof.
  unfold ANPRApp.previous_image, ANPRApp.no_data. intros H.
  destruct (ANPRApp.dataset s) as [ [ | it data ] | ] eqn:D; try exact H.
  cbn [truthy negb]. destruct (0 <? ANPRApp.current_dataset_index s)%Z eqn:E; [ | exact H ].
  apply Z.ltb_lt in E. unfold nav_ok in *. rewrite D in H.
  cbn [ANPRApp.dataset ANPRApp.current_dataset_index ANPRApp.prev_enabled ANPRApp.next_enabled].
  destruct H as (H0 & _ & H). destruct (H ltac:(discriminate)) as (Hlt & Hp & Hn).
  split; [ lia | split; [ discriminate | ] ]. intros _.
  split; [ lia | split; [ apply Z.ltb_lt | discriminate ] ].
Qed.

Lemma next_ok s : nav_ok s -> nav_ok (ANPRApp.next_image s).
Proof.
  unfold ANPRApp.next_image, ANPRApp.no_data. intros H.
  destruct (ANPRApp.dataset s) as [ [ | it data ] | ] eqn:D; try exact H.
  cbn [truthy negb].
  destruct (ANPRApp.current_dataset_index s <? Z.of_nat (len (it :: data)) - 1)%Z eqn:E;
    [ | exact H ].
  apply Z.ltb_lt in E. unfold nav_ok in *. rewrite D in H.
  cbn [ANPRApp.dataset ANPRApp.current_dataset_index ANPRApp.prev_enabled ANPRApp.next_enabled].
  destruct H as (H0 & _ & H). destruct (H ltac:(discriminate)) as (Hlt & Hp & Hn).
  split; [ lia | split; [ discriminate | ] ]. intros _.
  split; [ lia | split; [ split; [ lia | reflexivity ] | ] ].
  intros F. apply Z.ltb_ge in F. lia.
Qed.

Lemma run_from_ok events : forall s, nav_ok s -> nav_ok (fold_left ANPRApp.step events s).
Proof.
  induction events as [ | e events IH ]; intros s H; [ exact H | ].
  apply IH. destruct e; [ apply browse_ok | now apply previous_ok | now apply next_ok ].
Qed.

Lemma run_ok events : nav_ok (ANPRApp.run events).
Proof. apply run_from_ok. reflexivity. Qed.

(** X20: whatever the user does (loading label files, Previous, Next, in
    any order), the index of the current image is 0 while there is no
    data and otherwise a valid index of the data, so
    [data[self.current_dataset_index]] never fails. *)
Theorem navigation_index_in_range (events : list ANPRApp.event) :
  match ANPRApp.dataset (ANPRApp.run events) with
  | None => ANPRApp.current_dataset_index (ANPRApp.run events) = 0%Z
  | Some data =>
      (0 <= ANPRApp.current_dataset_index (ANPRApp.run events))%Z
      /\ (data = [] -> ANPRApp.current_dataset_index (ANPRApp.run events) = 0%Z)
      /\ (data <> [] ->
          (ANPRApp.current_dataset_index (ANPRApp.run events) < Z.of_nat (len data))%Z)
  end.
Proof.
  pose proof (run_ok events) as H. unfold nav_ok in H.
  destruct (ANPRApp.dataset (ANPRApp.run events)); [ | exact H ].
  destruct H as (H0 & He & H). split; [ exact H0 | split; [ exact He | ] ].
  intros Hne. now apply H.
Qed.



(** X22: Next and Previous undo each other: from an image that is not
    the last, Next followed by Previous comes back to it, and from an
    image that is not the first, Previous followed by Next does. *)
Theorem navigation_round_trip (s : ANPRApp.state) (data : list DatasetLoader.item) :
  ANPRApp.dataset s = Some data ->
  (0 <= ANPRApp.current_dataset_index s < Z.of_nat (len data))%Z ->
  ((ANPRApp.current_dataset_index s < Z.of_nat (len data) - 1)%Z ->
   ANPRApp.current_dataset_index (ANPRApp.previous_image (ANPRApp.next_image s))
   = ANPRApp.current_dataset_index s)
  /\ ((0 < ANPRApp.current_dataset_index s)%Z ->
      ANPRApp.current_dataset_index (ANPRApp.next_image (ANPRApp.previous_image s))
      = ANPRApp.current_dataset_index s).
Proof.
  intros D Hi.
  assert (Hd : truthy data = true).
  { destruct data; [ simpl in Hi; lia | reflexivity ]. }
  split; intros H.
  - unfold ANPRApp.next_image, ANPRApp.no_data. rewrite D, Hd. cbn [negb].
    apply Z.ltb_lt in H. rewrite H.
    unfold ANPRApp.previous_image, ANPRApp.no_data.
    cbn [ANPRApp.dataset ANPRApp.current_dataset_index]. rewrite ?D, Hd. cbn [negb].
    replace (0 <? ANPRApp.current_dataset_index s + 1)%Z with true
      by (symmetry; apply Z.ltb_lt; lia).
    cbn [ANPRApp.current_dataset_index]. lia.
  - unfold ANPRApp.previous_image, ANPRApp.no_data. rewrite D, Hd. cbn [negb].
    apply Z.ltb_lt in H. rewrite H.
    unfold ANPRApp.next_image, ANPRApp.no_data.
    cbn [ANPRApp.dataset ANPRApp.current_dataset_index]. rewrite ?D, Hd. cbn [negb].
    replace (ANPRApp.current_dataset_index s - 1 <? Z.of_nat (len data) - 1)%Z with true
      by (symmetry; apply Z.ltb_lt; lia).
    cbn [ANPRApp.current_dataset_index]. lia.
Qed.

Lemma navigation_round_trip_witness :
  ((ANPRApp.current_dataset_index (ANPRApp.run [ANPRApp.Browse sample_data; ANPRApp.Next])
    < Z.of_nat (len sample_data) - 1)%Z ->
   ANPRApp.current_dataset_index
     (ANPRApp.previous_image
        (ANPRApp.next_image (ANPRApp.run [ANPRApp.Browse sample_data; ANPRApp.Next])))
   = ANPRApp.current_dataset_index (ANPRApp.run [ANPRApp.Browse sample_data; ANPRApp.Next]))
  /\ ((0 < ANPRApp.current_dataset_index
             (ANPRApp.run [ANPRApp.Browse sample_data; ANPRApp.Next]))%Z ->
      ANPRApp.current_dataset_index
        (ANPRApp.next_image
           (ANPRApp.previous_image (ANPRApp.run [ANPRApp.Browse sample_data; ANPRApp.Next])))
      = ANPRApp.current_dataset_index (ANPRApp.run [ANPRApp.Browse sample_data; ANPRApp.Next])).
Proof.
  apply (navigation_round_trip (ANPRApp.run [ANPRApp.Browse sample_data; ANPRApp.Next])
           sample_data).
  - reflexivity.
  - vm_compute. split; [ discriminate | reflexivity ].
Defined.
